(** * NAMELIST: the manifest state engine of [src/App.tsx]

    A shallow embedding of the passenger-manifest logic of the React
    component [App] (history store, derived attributes, duplicate rule,
    batch ingestion, field edits, deletion, date filter and sort), together
    with the theorems that relate it to the written specification.

    Conventions of the embedding.
    - JavaScript strings are [string]s of 8-bit characters; the helpers of
      module [JS] are exact on ASCII text.
    - A JavaScript number that the code only ever uses as an integer or as
      NaN is an [option Z], with [None] for NaN.
    - An optional property ([title?: string]) is an [option]; [None] is
      [undefined].
    - An array object is a [Snapshot]: the address of the object together
      with its elements, so that the identity test [===] of the history
      store can be stated. *)

From Stdlib Require Import ZArith List String Ascii Bool Arith Lia.
From Stdlib Require Import Permutation Sorted.
Import ListNotations.

(* ===================================================================== *)
(** ** JavaScript primitives used by the component                        *)
(* ===================================================================== *)

Module JS.

Local Open Scope string_scope.

(** Truthiness of a string: every string but the empty one. *)
Definition truthy_string (s : string) : bool :=
  match s with
  | EmptyString => false
  | String _ _ => true
  end.

(** Truthiness of an optional string property: [undefined] and [''] are
    falsy. *)
Definition truthy (o : option string) : bool :=
  match o with
  | Some s => truthy_string s
  | None => false
  end.

(** [a || b] where [a] is an optional string and [b] a string. *)
Definition or_else (o : option string) (d : string) : string :=
  match o with
  | Some s => if truthy_string s then s else d
  | None => d
  end.

(** [c.toUpperCase()] on one ASCII character. *)
Definition upper_ascii (c : ascii) : ascii :=
  let n := nat_of_ascii c in
  if (97 <=? n)%nat && (n <=? 122)%nat then ascii_of_nat (n - 32) else c.

(** [s.toUpperCase()]. *)
Fixpoint toUpperCase (s : string) : string :=
  match s with
  | EmptyString => EmptyString
  | String c r => String (upper_ascii c) (toUpperCase r)
  end.

(** The white space and line terminators of ASCII: TAB, LF, VT, FF, CR
    and SPACE. *)
Definition is_space (c : ascii) : bool :=
  let n := nat_of_ascii c in
  ((9 <=? n)%nat && (n <=? 13)%nat) || (n =? 32)%nat.

Fixpoint trimStart (s : string) : string :=
  match s with
  | EmptyString => EmptyString
  | String c r => if is_space c then trimStart r else s
  end.

(** Drops the white space at the end: a character is kept when it is not
    a space or when something is kept after it. *)
Fixpoint trimEnd (s : string) : string :=
  match s with
  | EmptyString => EmptyString
  | String c r =>
      match trimEnd r with
      | EmptyString => if is_space c then EmptyString else String c EmptyString
      | r' => String c r'
      end
  end.

(** [s.trim()]. *)
Definition trim (s : string) : string := trimEnd (trimStart s).

(** [s.split(sep)] for a one-character separator: the pieces between the
    occurrences of [sep]; never the empty list. *)
Fixpoint split (sep : ascii) (s : string) : list string :=
  match s with
  | EmptyString => [EmptyString]
  | String c r =>
      if Ascii.eqb c sep then EmptyString :: split sep r
      else match split sep r with
           | p :: ps => String c p :: ps
           | [] => [String c EmptyString]
           end
  end.

(** [a.slice(-n)]: the last [n] elements of [a], all of [a] when it has
    fewer. *)
Definition slice_last {A} (n : nat) (l : list A) : list A :=
  skipn (List.length l - n) l.

(** [a.slice(0, a.length - 1)]. *)
Definition slice_init {A} (l : list A) : list A :=
  firstn (List.length l - 1) l.

(** *** Numbers that may be NaN *)

(** A number the component uses as an integer or NaN. *)
Definition num : Type := option Z.

(** [a - b]. *)
Definition sub (a b : num) : num :=
  match a, b with
  | Some x, Some y => Some (x - y)%Z
  | _, _ => None
  end.

(** [a < b]: false as soon as one side is NaN. *)
Definition lt (a b : num) : bool :=
  match a, b with
  | Some x, Some y => (x <? y)%Z
  | _, _ => false
  end.

(** [a > b]. *)
Definition gt (a b : num) : bool := lt b a.

(** [a === b] on numbers: NaN equals nothing. *)
Definition eq (a b : num) : bool :=
  match a, b with
  | Some x, Some y => (x =? y)%Z
  | _, _ => false
  end.

(** The value of a character as a digit of [parseInt]: ['0'-'9'], then
    letters of either case from 10 on. *)
Definition digit_value (c : ascii) : option Z :=
  let n := nat_of_ascii c in
  if (48 <=? n)%nat && (n <=? 57)%nat then Some (Z.of_nat (n - 48))
  else if (97 <=? n)%nat && (n <=? 122)%nat then Some (Z.of_nat (n - 87))
  else if (65 <=? n)%nat && (n <=? 90)%nat then Some (Z.of_nat (n - 55))
  else None.

(** The longest prefix of digits of the radix, read as a number; [acc] is
    [None] until a digit has been read. *)
Fixpoint parse_digits (radix : Z) (acc : num) (s : string) : num :=
  match s with
  | EmptyString => acc
  | String c r =>
      match digit_value c with
      | Some d =>
          if (d <? radix)%Z
          then parse_digits radix
                 (Some (match acc with
                        | Some a => a * radix + d
                        | None => d
                        end)%Z) r
          else acc
      | None => acc
      end
  end.

(** [parseInt(s)] without a radix: leading white space, a sign, a [0x]
    prefix that selects radix 16, then the digits; NaN when there is no
    digit.  Exact as long as the value is a safe integer. *)
Definition parseInt (s : string) : num :=
  let s1 := trimStart s in
  let '(sign, s2) :=
    match s1 with
    | String "-" r => ((-1)%Z, r)
    | String "+" r => (1%Z, r)
    | _ => (1%Z, s1)
    end in
  let '(radix, s3) :=
    match s2 with
    | String "0" (String "x" r) => (16%Z, r)
    | String "0" (String "X" r) => (16%Z, r)
    | _ => (10%Z, s2)
    end in
  match parse_digits radix None s3 with
  | Some v => Some (sign * v)%Z
  | None => None
  end.

(** [parts[i]] for an index inside the array. *)
Definition at_index (parts : list string) (i : nat) : string :=
  nth i parts EmptyString.

(** [Array.prototype.sort(cmp)]: the sort is stable; an insertion sort
    that moves an element right only past strictly smaller ones. *)
Fixpoint sort_insert {A} (cmp : A -> A -> Z) (x : A) (l : list A) : list A :=
  match l with
  | [] => [x]
  | y :: r => if (0 <? cmp x y)%Z then y :: sort_insert cmp x r else x :: l
  end.

Definition sort {A} (cmp : A -> A -> Z) (l : list A) : list A :=
  fold_right (sort_insert cmp) [] l.

End JS.

(* ===================================================================== *)
(** ** The [Date] object                                                  *)
(* ===================================================================== *)

(** The part of [Date] that the component uses, after ECMA-262 (Date
    objects): a date holds a time value, the milliseconds since the epoch
    in UTC, or NaN (``Invalid Date'').  Local time is UTC shifted by a fixed
    offset [tz] in minutes (positive to the east); daylight saving changes
    are not modelled. *)
Module JSDate.

Local Open Scope Z_scope.

Definition msPerDay : Z := 86400000.
Definition msPerMinute : Z := 60000.

(** A [Date] object: its time value. *)
Definition Date : Type := JS.num.

(** Day number (days since 1970-01-01) of the given day of the proleptic
    Gregorian calendar; [month] is 0-based and within 0..11. *)
Definition days_from_civil (year month date : Z) : Z :=
  let y := if month <? 2 then year - 1 else year in
  let era := y / 400 in
  let yoe := y - era * 400 in
  let mp := if month <? 2 then month + 10 else month - 2 in
  let doy := (153 * mp + 2) / 5 + date - 1 in
  let doe := yoe * 365 + yoe / 4 - yoe / 100 + doy in
  era * 146097 + doe - 719468.

(** Year, 0-based month and day of the month of a day number. *)
Definition civil_from_days (day : Z) : Z * Z * Z :=
  let z := day + 719468 in
  let era := z / 146097 in
  let doe := z - era * 146097 in
  let yoe := (doe - doe / 1460 + doe / 36524 - doe / 146096) / 365 in
  let doy := doe - (365 * yoe + yoe / 4 - yoe / 100) in
  let mp := (5 * doy + 2) / 153 in
  let d := doy - (153 * mp + 2) / 5 + 1 in
  let m := if mp <? 10 then mp + 2 else mp - 10 in
  let y := yoe + era * 400 in
  (if m <? 2 then y + 1 else y, m, d).

(** [MakeDay]: months outside 0..11 carry into the year, and the day of
    the month is an offset from the first of the month. *)
Definition MakeDay (year month date : Z) : Z :=
  days_from_civil (year + month / 12) (month mod 12) 1 + date - 1.

(** [TimeClip]: a time value further than 8.64e15 ms from the epoch is
    NaN. *)
Definition TimeClip (t : Z) : Date :=
  if Z.abs t <=? 8640000000000000 then Some t else None.

(** [MakeFullYear]: a year from 0 to 99 means 1900 + year. *)
Definition MakeFullYear (year : Z) : Z :=
  if (0 <=? year) && (year <=? 99) then 1900 + year else year.

(** [new Date(year, month, date)]: local midnight of that day; NaN when
    an argument is NaN. *)
Definition of_ymd (tz : Z) (year month date : JS.num) : Date :=
  match year, month, date with
  | Some y, Some m, Some d =>
      TimeClip (MakeDay (MakeFullYear y) m d * msPerDay - tz * msPerMinute)
  | _, _, _ => None
  end.

(** The local calendar day of a time value. *)
Definition local_civil (tz : Z) (t : Z) : Z * Z * Z :=
  civil_from_days ((t + tz * msPerMinute) / msPerDay).

(** [d.getFullYear()], [d.getMonth()] (0-based) and [d.getDate()]. *)
Definition getFullYear (tz : Z) (d : Date) : JS.num :=
  option_map (fun t => fst (fst (local_civil tz t))) d.

Definition getMonth (tz : Z) (d : Date) : JS.num :=
  option_map (fun t => snd (fst (local_civil tz t))) d.

Definition getDate (tz : Z) (d : Date) : JS.num :=
  option_map (fun t => snd (local_civil tz t)) d.

(** [d.setHours(h, m, s)]: the same local day at the given time, the
    milliseconds kept; the new time value. *)
Definition setHours (tz : Z) (d : Date) (h m s : Z) : Date :=
  match d with
  | Some t =>
      let lt := t + tz * msPerMinute in
      let milli := lt mod 1000 in
      TimeClip ((lt / msPerDay) * msPerDay
                + ((h * 60 + m) * 60 + s) * 1000 + milli
                - tz * msPerMinute)
  | None => None
  end.

(** [n] decimal digits at the head of [s]: their value and the rest. *)
Fixpoint take_digits (n : nat) (acc : Z) (s : string) : option (Z * string) :=
  match n with
  | O => Some (acc, s)
  | S n' =>
      match s with
      | String c r =>
          let k := nat_of_ascii c in
          if (48 <=? k)%nat && (k <=? 57)%nat
          then take_digits n' (acc * 10 + Z.of_nat (k - 48)) r
          else None
      | EmptyString => None
      end
  end.

(** [new Date(s)] for the value of an [<input type="date">], the date-only
    form [YYYY-MM-DD]: midnight of that day in UTC.  Any other string is
    taken as unparseable. *)
Definition parse (s : string) : Date :=
  match take_digits 4 0 s with
  | Some (y, String "-" s1) =>
      match take_digits 2 0 s1 with
      | Some (m, String "-" s2) =>
          match take_digits 2 0 s2 with
          | Some (d, EmptyString) =>
              if (1 <=? m) && (m <=? 12) && (1 <=? d) && (d <=? 31)
              then TimeClip (MakeDay y (m - 1) d * msPerDay)
              else None
          | _ => None
          end
      | _ => None
      end
  | _ => None
  end.

End JSDate.

(* ===================================================================== *)
(** ** Data model ([src/types.ts])                                        *)
(* ===================================================================== *)

(** [PassportData['status']]. *)
Inductive Status : Type := Pending | Processing | Completed | Failed.

(** The string literal behind each status; [Failed] is ['error']. *)
Definition Status_str (s : Status) : string :=
  match s with
  | Pending => "pending"
  | Processing => "processing"
  | Completed => "completed"
  | Failed => "error"
  end.

Definition Status_eqb (a b : Status) : bool :=
  match a, b with
  | Pending, Pending | Processing, Processing
  | Completed, Completed | Failed, Failed => true
  | _, _ => false
  end.

(** The return type of [deriveAttributes] for [passengerType]. *)
Inductive PassengerType : Type := ADULT | CHILD | INFANT.

Definition PassengerType_str (t : PassengerType) : string :=
  match t with
  | ADULT => "ADULT"
  | CHILD => "CHILD"
  | INFANT => "INFANT"
  end.

(** [enum ProcessingStatus]. *)
Inductive ProcessingStatus : Type := IDLE | UPLOADING | PROCESSING | COMPLETED.

(** [interface PassportData].  The three name and number properties are
    declared [string], but the merge of a service answer in [processFiles]
    can store [undefined] in them, so they are optional here as they are at
    run time. *)
Record PassportData : Type := mkPassportData {
  id : string;
  passengerType : option string;
  title : option string;
  firstName : option string;
  lastName : option string;
  passportNumber : option string;
  nationality : option string;
  gender : option string;
  dateOfBirth : option string;
  issueDate : option string;
  expiryDate : option string;
  fileName : string;
  status : Status;
  errorMessage : option string;
  isDuplicate : option bool
}.

(** An array of records as an object of the heap: [snap_ref] is the
    identity that [===] compares, [snap_items] the elements. *)
Record Snapshot : Type := mkSnapshot {
  snap_ref : nat;
  snap_items : list PassportData
}.

(** [a === b] on two arrays. *)
Definition same_ref (a b : Snapshot) : bool :=
  Nat.eqb (snap_ref a) (snap_ref b).

(** [interface HistoryState]. *)
Record HistoryState : Type := mkHistory {
  past : list Snapshot;
  present : Snapshot;
  future : list Snapshot
}.

(* ===================================================================== *)
(** ** History store                                                      *)
(* ===================================================================== *)

(** The first argument of [setPassportsWithHistory]: an array, or a
    function from the present array to the next one. *)
Inductive NewPassports : Type :=
| Value (s : Snapshot)
| Updater (f : Snapshot -> Snapshot).

(** [typeof newPassports === 'function' ? newPassports(prev.present)
    : newPassports]. *)
Definition nextPresent (newPassports : NewPassports) (prev : HistoryState)
  : Snapshot :=
  match newPassports with
  | Value s => s
  | Updater f => f (present prev)
  end.

(** The state update that [setPassportsWithHistory] hands to
    [setHistory]. *)
Definition setPassportsWithHistory (newPassports : NewPassports)
    (shouldClearFuture : bool) (prev : HistoryState) : HistoryState :=
  let next := nextPresent newPassports prev in
  if same_ref next (present prev) then prev
  else {| past := JS.slice_last 50 (past prev ++ [present prev]);
          present := next;
          future := if shouldClearFuture then [] else future prev |}.

(** [commit(next)] of the specification: the call with the default
    [shouldClearFuture = true], the only form the component uses. *)
Definition commit (next : Snapshot) : HistoryState -> HistoryState :=
  setPassportsWithHistory (Value next) true.

(** The state update of [undo]. *)
Definition undo (prev : HistoryState) : HistoryState :=
  match past prev with
  | [] => prev
  | p0 :: ps =>
      let previous := last (past prev) p0 in
      let newPast := JS.slice_init (past prev) in
      {| past := newPast;
         present := previous;
         future := present prev :: future prev |}
  end.

(** The state update of [redo]. *)
Definition redo (prev : HistoryState) : HistoryState :=
  match future prev with
  | [] => prev
  | next :: newFuture =>
      {| past := past prev ++ [present prev];
         present := next;
         future := newFuture |}
  end.

(* ===================================================================== *)
(** ** Derived attribute calculator                                       *)
(* ===================================================================== *)

(** What [new Date()] reads: the current instant (a valid time value) and
    the offset of the local zone. *)
Record Clock : Type := mkClock {
  now : Z;
  tz : Z
}.

(** The result of [deriveAttributes]; the fields carry a prefix because
    [title] and [passengerType] name the properties of [PassportData]. *)
Record Derived : Type := mkDerived {
  d_title : string;
  d_passengerType : PassengerType
}.

(** Lines 62 to 69 of [deriveAttributes]: the local variable [age], from
    the three components of the date of birth.  NaN when a component does
    not parse or the date is out of range. *)
Definition age (clk : Clock) (parts : list string) : JS.num :=
  let birthDate :=
    JSDate.of_ymd (tz clk)
      (JS.parseInt (JS.at_index parts 2))
      (JS.sub (JS.parseInt (JS.at_index parts 1)) (Some 1%Z))
      (JS.parseInt (JS.at_index parts 0)) in
  let today : JSDate.Date := Some (now clk) in
  let age0 := JS.sub (JSDate.getFullYear (tz clk) today)
                     (JSDate.getFullYear (tz clk) birthDate) in
  let m := JS.sub (JSDate.getMonth (tz clk) today)
                  (JSDate.getMonth (tz clk) birthDate) in
  if JS.lt m (Some 0%Z)
     || (JS.eq m (Some 0%Z)
         && JS.lt (JSDate.getDate (tz clk) today)
                  (JSDate.getDate (tz clk) birthDate))
  then JS.sub age0 (Some 1%Z)
  else age0.

Definition deriveAttributes (clk : Clock) (dob gender : string) : Derived :=
  if negb (JS.truthy_string dob)
  then {| d_title := ""; d_passengerType := ADULT |}
  else
    let parts := JS.split "/" dob in
    if negb (List.length parts =? 3)%nat
    then {| d_title := ""; d_passengerType := ADULT |}
    else
      let age := age clk parts in
      let pType :=
        if JS.lt age (Some 2%Z) then INFANT
        else if JS.lt age (Some 12%Z) then CHILD
        else ADULT in
      let isMale := String.eqb (JS.toUpperCase gender) "MALE" in
      let title : string :=
        (if JS.lt age (Some 2%Z)
         then (if isMale then "MSTR" else "MISS")
         else if isMale then "MR"
              else (if JS.gt age (Some 30%Z) then "MRS" else "MS"))%string in
      {| d_title := title; d_passengerType := pType |}.

(* ===================================================================== *)
(** ** Duplicate detector                                                 *)
(* ===================================================================== *)

(** [Partial<PassportData>] as [checkIsDuplicate] reads it: anything with
    the three identifying properties. *)
Class Identified (A : Type) : Type := {
  get_passportNumber : A -> option string;
  get_firstName : A -> option string;
  get_lastName : A -> option string
}.

#[export] Instance Identified_PassportData : Identified PassportData :=
  {| get_passportNumber := passportNumber;
     get_firstName := firstName;
     get_lastName := lastName |}.

(** [a && b && a.trim().toUpperCase() === b.trim().toUpperCase()]. *)
Definition same_text (a b : option string) : bool :=
  match a, b with
  | Some x, Some y =>
      JS.truthy_string x && JS.truthy_string y
      && String.eqb (JS.toUpperCase (JS.trim x)) (JS.toUpperCase (JS.trim y))
  | _, _ => false
  end.

(** The callback of [list.some] in [checkIsDuplicate]: does the record [p]
    of the list match the candidate? *)
Definition flags {A} `{Identified A} (details : A) (currentId : string)
    (p : PassportData) : bool :=
  if String.eqb (id p) currentId then false
  else if negb (Status_eqb (status p) Completed) then false
  else
    let samePassport :=
      same_text (get_passportNumber details) (passportNumber p) in
    let sameName :=
      same_text (get_firstName details) (firstName p)
      && same_text (get_lastName details) (lastName p) in
    samePassport || sameName.

Definition checkIsDuplicate {A} `{Identified A} (details : A)
    (currentId : string) (list : list PassportData) : bool :=
  if negb (JS.truthy (get_passportNumber details))
     && (negb (JS.truthy (get_firstName details))
         || negb (JS.truthy (get_lastName details)))
  then false
  else existsb (flags details currentId) list.

(* ===================================================================== *)
(** ** The component state                                                *)
(* ===================================================================== *)

(** The state of [App] that the manifest logic reads or writes, and
    [next_ref], the next free address of the heap of arrays.  The purely
    presentational state ([view], [editingId], [showFilters], the batch
    timer) is left out. *)
Record AppState : Type := mkApp {
  history : HistoryState;
  app_status : ProcessingStatus;
  processedCount : nat;
  totalCount : nat;
  next_ref : nat
}.

(** The state when the component mounts: three empty arrays were
    allocated, the present one at address 0. *)
Definition initial : AppState :=
  {| history := {| past := []; present := mkSnapshot 0 []; future := [] |};
     app_status := IDLE;
     processedCount := 0;
     totalCount := 0;
     next_ref := 1 |}.

(** [setHistory(updater)]. *)
Definition setHistory (updater : HistoryState -> HistoryState)
    (st : AppState) : AppState :=
  {| history := updater (history st);
     app_status := app_status st;
     processedCount := processedCount st;
     totalCount := totalCount st;
     next_ref := next_ref st |}.

(** [n] arrays were allocated. *)
Definition bump (n : nat) (st : AppState) : AppState :=
  {| history := history st;
     app_status := app_status st;
     processedCount := processedCount st;
     totalCount := totalCount st;
     next_ref := next_ref st + n |}.

Definition setProcessedCount (n : nat) (st : AppState) : AppState :=
  {| history := history st;
     app_status := app_status st;
     processedCount := n;
     totalCount := totalCount st;
     next_ref := next_ref st |}.

Definition setTotalCount (n : nat) (st : AppState) : AppState :=
  {| history := history st;
     app_status := app_status st;
     processedCount := processedCount st;
     totalCount := n;
     next_ref := next_ref st |}.

Definition setStatus (s : ProcessingStatus) (st : AppState) : AppState :=
  {| history := history st;
     app_status := s;
     processedCount := processedCount st;
     totalCount := totalCount st;
     next_ref := next_ref st |}.

(* ===================================================================== *)
(** ** Field edits, deletion, clearing                                    *)
(* ===================================================================== *)

(** The keys of [PassportData] that the component ever passes as the
    edited field of [updatePassport] or as a sort key: the ten columns of
    [PassportTable] and rows of [DetailEditor]. *)
Inductive Field : Type :=
| F_passengerType | F_title | F_firstName | F_lastName | F_passportNumber
| F_nationality | F_gender | F_dateOfBirth | F_issueDate | F_expiryDate.

(** [p[field]]. *)
Definition get_field (field : Field) (p : PassportData) : option string :=
  match field with
  | F_passengerType => passengerType p
  | F_title => title p
  | F_firstName => firstName p
  | F_lastName => lastName p
  | F_passportNumber => passportNumber p
  | F_nationality => nationality p
  | F_gender => gender p
  | F_dateOfBirth => dateOfBirth p
  | F_issueDate => issueDate p
  | F_expiryDate => expiryDate p
  end.

(** [{ ...p, [field]: value }]. *)
Definition set_field (field : Field) (value : string) (p : PassportData)
  : PassportData :=
  let v := Some value in
  let pick (f : Field) (old : option string) : option string :=
    match field, f with
    | F_passengerType, F_passengerType | F_title, F_title
    | F_firstName, F_firstName | F_lastName, F_lastName
    | F_passportNumber, F_passportNumber | F_nationality, F_nationality
    | F_gender, F_gender | F_dateOfBirth, F_dateOfBirth
    | F_issueDate, F_issueDate | F_expiryDate, F_expiryDate => v
    | _, _ => old
    end in
  {| id := id p;
     passengerType := pick F_passengerType (passengerType p);
     title := pick F_title (title p);
     firstName := pick F_firstName (firstName p);
     lastName := pick F_lastName (lastName p);
     passportNumber := pick F_passportNumber (passportNumber p);
     nationality := pick F_nationality (nationality p);
     gender := pick F_gender (gender p);
     dateOfBirth := pick F_dateOfBirth (dateOfBirth p);
     issueDate := pick F_issueDate (issueDate p);
     expiryDate := pick F_expiryDate (expiryDate p);
     fileName := fileName p;
     status := status p;
     errorMessage := errorMessage p;
     isDuplicate := isDuplicate p |}.

(** [updated.passengerType = ...; updated.title = ...]. *)
Definition set_derived (d : Derived) (p : PassportData) : PassportData :=
  {| id := id p;
     passengerType := Some (PassengerType_str (d_passengerType d));
     title := Some (d_title d);
     firstName := firstName p;
     lastName := lastName p;
     passportNumber := passportNumber p;
     nationality := nationality p;
     gender := gender p;
     dateOfBirth := dateOfBirth p;
     issueDate := issueDate p;
     expiryDate := expiryDate p;
     fileName := fileName p;
     status := status p;
     errorMessage := errorMessage p;
     isDuplicate := isDuplicate p |}.

(** [{ ...p, isDuplicate: b }]. *)
Definition set_isDuplicate (b : bool) (p : PassportData) : PassportData :=
  {| id := id p;
     passengerType := passengerType p;
     title := title p;
     firstName := firstName p;
     lastName := lastName p;
     passportNumber := passportNumber p;
     nationality := nationality p;
     gender := gender p;
     dateOfBirth := dateOfBirth p;
     issueDate := issueDate p;
     expiryDate := expiryDate p;
     fileName := fileName p;
     status := status p;
     errorMessage := errorMessage p;
     isDuplicate := Some b |}.

(** The callback of the first [prev.map] of [updatePassport]. *)
Definition edit_record (clk : Clock) (id0 : string) (field : Field)
    (value : string) (p : PassportData) : PassportData :=
  if negb (String.eqb (id p) id0) then p
  else
    let updated := set_field field value p in
    match field with
    | F_dateOfBirth | F_gender =>
        let derived :=
          deriveAttributes clk (JS.or_else (dateOfBirth updated) "")
                               (JS.or_else (gender updated) "") in
        set_derived derived updated
    | _ => updated
    end.

(** The callback of the second [map] of [updatePassport]. *)
Definition mark (id0 : string) (isDup : bool) (p : PassportData)
  : PassportData :=
  if String.eqb (id p) id0 then set_isDuplicate isDup p else p.

(** The function that [updatePassport] passes to
    [setPassportsWithHistory]; its arrays are allocated at [r] and
    [r + 1]. *)
Definition updatePassport_next (clk : Clock) (r : nat) (id0 : string)
    (field : Field) (value : string) (prev : Snapshot) : Snapshot :=
  let updatedList := map (edit_record clk id0 field value) (snap_items prev) in
  match find (fun p => String.eqb (id p) id0) updatedList with
  | Some target =>
      if Status_eqb (status target) Completed
      then
        let isDup := checkIsDuplicate target id0 updatedList in
        mkSnapshot (r + 1) (map (mark id0 isDup) updatedList)
      else mkSnapshot r updatedList
  | None => mkSnapshot r updatedList
  end.

Definition updatePassport (clk : Clock) (id0 : string) (field : Field)
    (value : string) (st : AppState) : AppState :=
  bump 2
    (setHistory
       (setPassportsWithHistory
          (Updater (updatePassport_next clk (next_ref st) id0 field value))
          true) st).

(** The two editing entry points.  [PassportTable] upper-cases what is
    typed into five of its columns before it calls [onUpdate];
    [DetailEditor] passes what is typed as it is. *)
Inductive EntryPoint : Type := ViaPassportTable | ViaDetailEditor.

(** The value that the [onChange] handler of an entry point hands to
    [updatePassport] for the typed text [input]. *)
Definition onChange_value (via : EntryPoint) (field : Field) (input : string)
  : string :=
  match via with
  | ViaPassportTable =>
      match field with
      | F_firstName | F_lastName | F_gender | F_passportNumber
      | F_nationality => JS.toUpperCase input
      | _ => input
      end
  | ViaDetailEditor => input
  end.

(** An [onChange] event of an entry point on the record [id0]. *)
Definition onChange (via : EntryPoint) (clk : Clock) (id0 : string)
    (field : Field) (input : string) : AppState -> AppState :=
  updatePassport clk id0 field (onChange_value via field input).

Definition deletePassport (id0 : string) (st : AppState) : AppState :=
  let r := next_ref st in
  bump 1
    (setHistory
       (setPassportsWithHistory
          (Updater (fun prev =>
             mkSnapshot r
               (filter (fun p => negb (String.eqb (id p) id0))
                       (snap_items prev))))
          true) st).

(** [onClear], once confirmed: [setPassportsWithHistory([])]. *)
Definition onClear (st : AppState) : AppState :=
  bump 1
    (setHistory
       (setPassportsWithHistory (Value (mkSnapshot (next_ref st) [])) true)
       st).

(* ===================================================================== *)
(** ** Batch ingestion                                                    *)
(* ===================================================================== *)

Record File : Type := mkFile { name : string }.

(** What [extractPassportDetails] resolves to, with the [passengerType]
    that [processFiles] adds to it; the service leaves it undefined. *)
Record Details : Type := mkDetails {
  x_passengerType : option string;
  x_title : option string;
  x_firstName : option string;
  x_lastName : option string;
  x_passportNumber : option string;
  x_nationality : option string;
  x_gender : option string;
  x_dateOfBirth : option string;
  x_issueDate : option string;
  x_expiryDate : option string
}.

#[export] Instance Identified_Details : Identified Details :=
  {| get_passportNumber := x_passportNumber;
     get_firstName := x_firstName;
     get_lastName := x_lastName |}.

(** The outcome of one awaited call of the recognition service: the
    promise resolves with details or rejects with an error, whose
    [message] may be undefined. *)
Inductive Outcome : Type :=
| Resolved (details : Details)
| Rejected (message : option string).

(** What a batch reads from outside, by the index of the file: the
    identifier drawn by [Math.random], the outcome of the service call and
    the clock when the answer arrives. *)
Record BatchEnv : Type := mkBatchEnv {
  random_id : nat -> string;
  extractPassportDetails : nat -> File -> Outcome;
  clock_at : nat -> Clock
}.

(** The placeholder of a file. *)
Definition placeholder (i : string) (f : File) : PassportData :=
  {| id := i;
     passengerType := None;
     title := None;
     firstName := Some ""%string;
     lastName := Some ""%string;
     passportNumber := Some ""%string;
     nationality := None;
     gender := None;
     dateOfBirth := None;
     issueDate := None;
     expiryDate := None;
     fileName := name f;
     status := Processing;
     errorMessage := None;
     isDuplicate := None |}.

(** [fileArray.map((f, i) => ...)] with the index starting at [i]. *)
Fixpoint placeholders_from (env : BatchEnv) (i : nat) (files : list File)
  : list PassportData :=
  match files with
  | [] => []
  | f :: rest => placeholder (random_id env i) f :: placeholders_from env (S i) rest
  end.

(** [{ ...details, title: details.title || derived.title,
       passengerType: derived.passengerType }]. *)
Definition finalDetails (details : Details) (derived : Derived) : Details :=
  {| x_passengerType := Some (PassengerType_str (d_passengerType derived));
     x_title := Some (JS.or_else (x_title details) (d_title derived));
     x_firstName := x_firstName details;
     x_lastName := x_lastName details;
     x_passportNumber := x_passportNumber details;
     x_nationality := x_nationality details;
     x_gender := x_gender details;
     x_dateOfBirth := x_dateOfBirth details;
     x_issueDate := x_issueDate details;
     x_expiryDate := x_expiryDate details |}.

(** [{ ...p, ...finalDetails, status: 'completed', isDuplicate: dup }]:
    every property of the details overwrites the one of [p], undefined
    ones too. *)
Definition completed_record (p : PassportData) (fd : Details) (dup : bool)
  : PassportData :=
  {| id := id p;
     passengerType := x_passengerType fd;
     title := x_title fd;
     firstName := x_firstName fd;
     lastName := x_lastName fd;
     passportNumber := x_passportNumber fd;
     nationality := x_nationality fd;
     gender := x_gender fd;
     dateOfBirth := x_dateOfBirth fd;
     issueDate := x_issueDate fd;
     expiryDate := x_expiryDate fd;
     fileName := fileName p;
     status := Completed;
     errorMessage := errorMessage p;
     isDuplicate := Some dup |}.

(** [{ ...p, status: 'error', errorMessage: message }]. *)
Definition failed_record (p : PassportData) (message : option string)
  : PassportData :=
  {| id := id p;
     passengerType := passengerType p;
     title := title p;
     firstName := firstName p;
     lastName := lastName p;
     passportNumber := passportNumber p;
     nationality := nationality p;
     gender := gender p;
     dateOfBirth := dateOfBirth p;
     issueDate := issueDate p;
     expiryDate := expiryDate p;
     fileName := fileName p;
     status := Failed;
     errorMessage := message;
     isDuplicate := isDuplicate p |}.

(** The [try] branch of the loop of [processFiles] once the service has
    answered: lines 193 to 207. *)
Definition fileCompleted (clk : Clock) (placeholderId : string)
    (details : Details) (st : AppState) : AppState :=
  let derived :=
    deriveAttributes clk (JS.or_else (x_dateOfBirth details) "")
                         (JS.or_else (x_gender details) "") in
  let fd := finalDetails details derived in
  let r := next_ref st in
  bump 1
    (setHistory
       (fun prev =>
          let nextPresent :=
            mkSnapshot r
              (map (fun p =>
                      if String.eqb (id p) placeholderId
                      then completed_record p fd
                             (checkIsDuplicate fd placeholderId
                                (snap_items (present prev)))
                      else p)
                   (snap_items (present prev))) in
          {| past := past prev; present := nextPresent;
             future := future prev |})
       st).

(** The [catch] branch: lines 209 to 216. *)
Definition fileFailed (placeholderId : string) (message : option string)
    (st : AppState) : AppState :=
  let r := next_ref st in
  bump 1
    (setHistory
       (fun prev =>
          {| past := past prev;
             present :=
               mkSnapshot r
                 (map (fun p =>
                         if String.eqb (id p) placeholderId
                         then failed_record p message else p)
                      (snap_items (present prev)));
             future := future prev |})
       st).

(** The [for] loop of [processFiles] from index [i] on, one file after
    the other, with no other event in between. *)
Fixpoint processLoop (env : BatchEnv) (i : nat)
    (work : list (File * PassportData)) (st : AppState) : AppState :=
  match work with
  | [] => st
  | (file, ph) :: rest =>
      let placeholderId := id ph in
      let st1 :=
        match extractPassportDetails env i file with
        | Resolved details =>
            fileCompleted (clock_at env i) placeholderId details st
        | Rejected message => fileFailed placeholderId message st
        end in
      processLoop env (S i) rest (setProcessedCount (i + 1) st1)
  end.

(** The commit of the placeholders: line 184. *)
Definition addPlaceholders (placeholders : list PassportData)
    (st : AppState) : AppState :=
  let r := next_ref st in
  bump 1
    (setHistory
       (setPassportsWithHistory
          (Updater (fun prev => mkSnapshot r (placeholders ++ snap_items prev)))
          true) st).

Definition processFiles (env : BatchEnv) (files : list File)
    (st : AppState) : AppState :=
  if (List.length files =? 0)%nat then st
  else
    let st1 :=
      setStatus PROCESSING
        (setProcessedCount 0 (setTotalCount (List.length files) st)) in
    let placeholders := placeholders_from env 0 files in
    let st2 := addPlaceholders placeholders st1 in
    setStatus IDLE (processLoop env 0 (combine files placeholders) st2).

(* ===================================================================== *)
(** ** Sort and filter engine                                             *)
(* ===================================================================== *)

Inductive DateField : Type := DF_dateOfBirth | DF_issueDate | DF_expiryDate.

(** [interface FilterState]; [startDate] and [endDate] are the values of
    two [<input type="date">], [''] when unset. *)
Record FilterState : Type := mkFilter {
  field : DateField;
  startDate : string;
  endDate : string
}.

Inductive SortOrder : Type := asc | desc.

(** [interface SortConfig]. *)
Record SortConfig : Type := mkSort {
  key : option Field;
  order : SortOrder
}.

(** [p[filters.field]]. *)
Definition get_date (f : DateField) (p : PassportData) : option string :=
  match f with
  | DF_dateOfBirth => dateOfBirth p
  | DF_issueDate => issueDate p
  | DF_expiryDate => expiryDate p
  end.

(** The callback of [result.filter]: lines 265 to 278. *)
Definition in_range (zone : Z) (filters : FilterState) (p : PassportData)
  : bool :=
  let dateVal := get_date (field filters) p in
  if negb (JS.truthy dateVal) then false
  else
    let parts := JS.split "/" (JS.or_else dateVal "") in
    if negb (List.length parts =? 3)%nat then false
    else
      let pDate :=
        JSDate.of_ymd zone
          (JS.parseInt (JS.at_index parts 2))
          (JS.sub (JS.parseInt (JS.at_index parts 1)) (Some 1%Z))
          (JS.parseInt (JS.at_index parts 0)) in
      if JS.truthy_string (startDate filters)
         && JS.lt pDate (JSDate.parse (startDate filters))
      then false
      else if JS.truthy_string (endDate filters)
      then
        let end_ := JSDate.setHours zone (JSDate.parse (endDate filters))
                      23 59 59 in
        if JS.gt pDate end_ then false else true
      else true.

(** The comparison function of [result.sort]: lines 281 to 289. *)
Definition compare_by (k : Field) (o : SortOrder) (a b : PassportData) : Z :=
  let valA := JS.or_else (get_field k a) "" in
  let valB := JS.or_else (get_field k b) "" in
  let strA := JS.toUpperCase valA in
  let strB := JS.toUpperCase valB in
  if String.ltb strA strB
  then match o with asc => (-1)%Z | desc => 1%Z end
  else if String.ltb strB strA
  then match o with asc => 1%Z | desc => (-1)%Z end
  else 0%Z.

(** The memoised view: the present records, filtered, then sorted.
    [zone] is the offset of the local time zone. *)
Definition filteredAndSortedPassports (zone : Z) (passports : list PassportData)
    (filters : FilterState) (sortConfig : SortConfig) : list PassportData :=
  let result := passports in
  let result :=
    if JS.truthy_string (startDate filters) || JS.truthy_string (endDate filters)
    then filter (in_range zone filters) result
    else result in
  match key sortConfig with
  | Some k => JS.sort (compare_by k (order sortConfig)) result
  | None => result
  end.

(** [a === b] on two keys. *)
Definition Field_eqb (a b : Field) : bool :=
  match a, b with
  | F_passengerType, F_passengerType | F_title, F_title
  | F_firstName, F_firstName | F_lastName, F_lastName
  | F_passportNumber, F_passportNumber | F_nationality, F_nationality
  | F_gender, F_gender | F_dateOfBirth, F_dateOfBirth
  | F_issueDate, F_issueDate | F_expiryDate, F_expiryDate => true
  | _, _ => false
  end.

(** The state update of [handleSort]: the same key again turns an
    ascending order into a descending one, anything else sorts ascending. *)
Definition handleSort (k : Field) (prev : SortConfig) : SortConfig :=
  {| key := Some k;
     order :=
       match key prev, order prev with
       | Some k', asc => if Field_eqb k' k then desc else asc
       | _, _ => asc
       end |}.

(** Everything that can happen to the component state. *)
Inductive Action : Type :=
| A_onChange (via : EntryPoint) (clk : Clock) (id0 : string) (field : Field)
             (input : string)
| A_deletePassport (id0 : string)
| A_onClear
| A_addPlaceholders (placeholders : list PassportData)
| A_fileCompleted (clk : Clock) (placeholderId : string) (details : Details)
| A_fileFailed (placeholderId : string) (message : option string)
| A_processFiles (env : BatchEnv) (files : list File)
| A_undo
| A_redo.

Definition perform (a : Action) : AppState -> AppState :=
  match a with
  | A_onChange via clk id0 field input => onChange via clk id0 field input
  | A_deletePassport id0 => deletePassport id0
  | A_onClear => onClear
  | A_addPlaceholders phs => addPlaceholders phs
  | A_fileCompleted clk pid details => fileCompleted clk pid details
  | A_fileFailed pid message => fileFailed pid message
  | A_processFiles env files => processFiles env files
  | A_undo => setHistory undo
  | A_redo => setHistory redo
  end.

(** The states the component can be in. *)
Inductive reachable : AppState -> Prop :=
| reachable_initial : reachable initial
| reachable_perform a st : reachable st -> reachable (perform a st).

(** [commit] of a sequence of snapshots, first to last. *)
Definition commits (ss : list Snapshot) (h : HistoryState) : HistoryState :=
  fold_left (fun h s => commit s h) ss h.

(* ===================================================================== *)
(** ** Vocabulary of the properties and sample data                       *)
(* ===================================================================== *)

(** The invariant behind the bound on [past]: the snapshots that can be
    undone and those that can be redone are at most 50 together. *)
Definition bounded (h : HistoryState) : Prop :=
  List.length (past h) + List.length (future h) <= 50.

(** Every array of the history lies below the address [n]. *)
Definition below (n : nat) (h : HistoryState) : Prop :=
  Forall (fun s => snap_ref s < n) (past h)
  /\ snap_ref (present h) < n
  /\ Forall (fun s => snap_ref s < n) (future h).

(** The allocator is ahead of every array of the history, so that a new
    array is none of them. *)
Definition heap_ok (st : AppState) : Prop := below (next_ref st) (history st).

(** [l1] is [l2] with some elements left out, the others in their
    order. *)
Inductive Subseq {A : Type} : list A -> list A -> Prop :=
| Subseq_nil : Subseq [] []
| Subseq_keep x l1 l2 : Subseq l1 l2 -> Subseq (x :: l1) (x :: l2)
| Subseq_drop x l1 l2 : Subseq l1 l2 -> Subseq l1 (x :: l2).

(** Leap years of the Gregorian calendar. *)
Definition leap (y : Z) : bool :=
  ((y mod 4 =? 0) && negb (y mod 100 =? 0) || (y mod 400 =? 0))%Z.

(** The number of days of a month; [month] is 0-based. *)
Definition days_in_month (year month : Z) : Z :=
  if (month =? 1)%Z then (if leap year then 29 else 28)%Z
  else if ((month =? 3) || (month =? 5) || (month =? 8) || (month =? 10))%Z
       then 30%Z
       else 31%Z.

(** A clock: noon UTC of 15 June 2025, in a zone five and a half hours
    east of Greenwich. *)
Definition clock_2025 : Clock :=
  {| now := (JSDate.days_from_civil 2025 5 15 * JSDate.msPerDay + 43200000)%Z;
     tz := 330 |}.

(** The records of [updatePassport_next], whatever the addresses. *)
Definition edited (clk : Clock) (id0 : string) (field : Field)
    (value : string) (items : list PassportData) : list PassportData :=
  snap_items (updatePassport_next clk 0 id0 field value (mkSnapshot 0 items)).

(** The rule as a flag for every record: a record whose flag was never
    set counts as not flagged. *)
Definition flag (p : PassportData) : bool :=
  match isDuplicate p with
  | Some b => b
  | None => false
  end.

(** Every record of the snapshot carries the verdict of the rule on the
    snapshot. *)
Definition flags_agree (l : list PassportData) : bool :=
  forallb (fun p => Bool.eqb (flag p) (checkIsDuplicate p (id p) l)) l.

(** A completed record with the given id, passport number and names, not
    flagged. *)
Definition sample (i pn fn ln : string) : PassportData :=
  {| id := i;
     passengerType := Some "ADULT"%string;
     title := Some "MS"%string;
     firstName := Some fn;
     lastName := Some ln;
     passportNumber := Some pn;
     nationality := None;
     gender := None;
     dateOfBirth := None;
     issueDate := None;
     expiryDate := None;
     fileName := "scan.jpg"%string;
     status := Completed;
     errorMessage := None;
     isDuplicate := Some false |}.

(** A state whose present manifest holds the given records, with an empty
    history. *)
Definition manifest_of (items : list PassportData) : AppState :=
  {| history := {| past := []; present := mkSnapshot 0 items; future := [] |};
     app_status := IDLE;
     processedCount := 0;
     totalCount := 0;
     next_ref := 1 |}.

(** Two passengers with different passports and names. *)
Definition two_passengers : list PassportData :=
  [sample "a" "X1" "ANN" "LEE"; sample "b" "X2" "BOB" "RAY"].

(** The action went through the commit path: the prior present was pushed
    onto [past], trimmed to 50, and [future] was cleared. *)
Definition through_commit (a : Action) (st : AppState) : Prop :=
  past (history (perform a st))
  = JS.slice_last 50 (past (history st) ++ [present (history st)])
  /\ future (history (perform a st)) = [].

(** The operations that call [setPassportsWithHistory]. *)
Definition uses_commit (a : Action) : bool :=
  match a with
  | A_onChange _ _ _ _ _ | A_deletePassport _ | A_onClear
  | A_addPlaceholders _ => true
  | _ => false
  end.

(** The operations that change the manifest, undo and redo apart. *)
Definition is_mutation (a : Action) : bool :=
  match a with
  | A_onChange _ _ _ _ _ | A_deletePassport _ | A_onClear
  | A_addPlaceholders _ | A_fileCompleted _ _ _ | A_fileFailed _ _ => true
  | A_processFiles _ _ | A_undo | A_redo => false
  end.

(** The two updates of the loop of [processFiles]. *)
Definition is_file_update (a : Action) : bool :=
  match a with
  | A_fileCompleted _ _ _ | A_fileFailed _ _ => true
  | _ => false
  end.

(** The state after one file was accepted and before the service
    answered. *)
Definition one_placeholder : AppState :=
  addPlaceholders [placeholder "f1" (mkFile "scan1.jpg")] initial.

(** What the service read on a passport. *)
Definition details_of (pn fn ln dob : string) : Details :=
  {| x_passengerType := None;
     x_title := None;
     x_firstName := Some fn;
     x_lastName := Some ln;
     x_passportNumber := Some pn;
     x_nationality := Some "INDIA"%string;
     x_gender := Some "MALE"%string;
     x_dateOfBirth := Some dob;
     x_issueDate := None;
     x_expiryDate := None |}.

(** A batch whose ids are k0, k1, k2, ... and whose second answer is a
    failure. *)
Definition second_fails : BatchEnv :=
  {| random_id := fun i => String (ascii_of_nat 107)
                             (String (ascii_of_nat (48 + i)) EmptyString);
     extractPassportDetails := fun i _ =>
       match i with
       | 1 => Rejected (Some "Unable to read passport."%string)
       | _ => Resolved (details_of "U9628867" "FAISAL" "PULIKKUTH" "01/01/2023")
       end;
     clock_at := fun _ => clock_2025 |}.

(** The filter of the examples: expiry dates of the year 2025. *)
Definition expiry_2025 : FilterState :=
  {| field := DF_expiryDate;
     startDate := "2025-01-01";
     endDate := "2025-12-31" |}.

(** The sort configuration the component starts with. *)
Definition by_lastName : SortConfig :=
  {| key := Some F_lastName; order := asc |}.

(** A completed record with the given expiry date. *)
Definition expiring (d : string) : PassportData :=
  set_field F_expiryDate d (sample "a" "X1" "ANN" "LEE").

(* ===================================================================== *)
(** ** The recognition service, the export and the card                   *)
(* ===================================================================== *)

(** The object that [JSON.parse] returns in [extractPassportDetails]
    ([src/services/geminiService.ts]): every property is a string, as the
    response schema declares, or absent. *)
Record Answer : Type := mkAnswer {
  a_title : option string;
  a_firstName : option string;
  a_lastName : option string;
  a_passportNumber : option string;
  a_nationality : option string;
  a_gender : option string;
  a_dateOfBirth : option string;
  a_issueDate : option string;
  a_expiryDate : option string
}.

(** [o?.toUpperCase()]. *)
Definition upper_opt (o : option string) : option string :=
  option_map JS.toUpperCase o.

(** The object that [extractPassportDetails] returns for a parsed answer:
    lines 84 to 94. *)
Definition answer_details (result : Answer) : Details :=
  {| x_passengerType := None;
     x_title := upper_opt (a_title result);
     x_firstName := upper_opt (a_firstName result);
     x_lastName := upper_opt (a_lastName result);
     x_passportNumber := upper_opt (a_passportNumber result);
     x_nationality := upper_opt (a_nationality result);
     x_gender := upper_opt (a_gender result);
     x_dateOfBirth := a_dateOfBirth result;
     x_issueDate := a_issueDate result;
     x_expiryDate := a_expiryDate result |}.

(** A cell of the exported sheet: a number or a text. *)
Inductive Cell : Type :=
| CNum (n : nat)
| CStr (s : string).

(** The header row of [exportToXLSX]. *)
Definition headers : list string :=
  ["NO"; "TYPE"; "TITLE"; "FIRST NAME"; "LAST NAME"; "GENDER";
   "PASSPORT NUMBER"; "COUNTRY"; "DATE OF BIRTH"; "DATE OF ISSUE";
   "DATE OF EXPIRE"]%string.

(** The row of the record [p] at index [i] of the view. *)
Definition export_row (i : nat) (p : PassportData) : list Cell :=
  [CNum (i + 1);
   CStr (JS.or_else (passengerType p) "ADULT");
   CStr (JS.or_else (title p) "");
   CStr (JS.or_else (firstName p) "");
   CStr (JS.or_else (lastName p) "");
   CStr (JS.or_else (gender p) "");
   CStr (JS.or_else (passportNumber p) "");
   CStr (JS.or_else (nationality p) "");
   CStr (JS.or_else (dateOfBirth p) "");
   CStr (JS.or_else (issueDate p) "");
   CStr (JS.or_else (expiryDate p) "")].

(** [view.map((p, i) => ...)] with the index starting at [i]. *)
Fixpoint export_rows_from (i : nat) (view : list PassportData)
  : list (list Cell) :=
  match view with
  | [] => []
  | p :: rest => export_row i p :: export_rows_from (S i) rest
  end.

(** The array of arrays that [exportToXLSX] hands to the sheet writer:
    the headers, then one row per record of the view. *)
Definition export_sheet (view : list PassportData) : list (list Cell) :=
  map CStr headers :: export_rows_from 0 view.

(** [s.charAt(0)]. *)
Definition charAt0 (s : string) : string :=
  match s with
  | String c _ => String c EmptyString
  | EmptyString => EmptyString
  end.

(** [getInitials] of [PassportCard], for the [status] of the card. *)
Definition getInitials (st : Status) (first last : option string) : string :=
  if Status_eqb st Failed then "!"%string
  else
    let text :=
      JS.toUpperCase
        (String.append (JS.or_else (option_map charAt0 first) "")
                       (JS.or_else (option_map charAt0 last) "")) in
    if JS.truthy_string text then text else "?"%string.

(** The [disabled] attribute of the undo button and of the redo button:
    [history.past.length === 0] and [history.future.length === 0]. *)
Definition undoDisabled (h : HistoryState) : bool :=
  (List.length (past h) =? 0)%nat.

Definition redoDisabled (h : HistoryState) : bool :=
  (List.length (future h) =? 0)%nat.

(* ===================================================================== *)
(** ** Vocabulary of the further properties                               *)
(* ===================================================================== *)

(** The snapshots of a history in the order of time: the past, the
    present, the future. *)
Definition timeline (h : HistoryState) : list Snapshot :=
  past h ++ present h :: future h.

(** The value is absent or is its own upper-cased form. *)
Definition upper_cased (o : option string) : Prop :=
  match o with
  | Some s => JS.toUpperCase s = s
  | None => True
  end.

(** The records [recs] are what a batch makes of the files [files], the
    first of which has index [i]: each one carries the id drawn for its
    file and the name of the file, and is completed when the service
    resolved and in error, with the message, when it rejected. *)
Fixpoint settled (env : BatchEnv) (i : nat) (files : list File)
    (recs : list PassportData) : Prop :=
  match files, recs with
  | [], [] => True
  | f :: fs, r :: rs =>
      id r = random_id env i
      /\ fileName r = name f
      /\ match extractPassportDetails env i f with
         | Resolved d =>
             status r = Completed
             /\ firstName r = x_firstName d
             /\ lastName r = x_lastName d
             /\ passportNumber r = x_passportNumber d
             /\ errorMessage r = None
         | Rejected m => status r = Failed /\ errorMessage r = m
         end
      /\ settled env (S i) fs rs
  | _, _ => False
  end.

(** The ids that a batch of [n] files draws. *)
Definition batch_ids (env : BatchEnv) (n : nat) : list string :=
  map (random_id env) (seq 0 n).



(** The records that the view shows before sorting. *)
Definition shown (zone : Z) (passports : list PassportData)
    (filters : FilterState) : list PassportData :=
  if JS.truthy_string (startDate filters) || JS.truthy_string (endDate filters)
  then filter (in_range zone filters) passports
  else passports.

(** Two optional texts are given, not empty, and equal once trimmed and
    upper-cased. *)
Definition same_after_trim (a b : option string) : Prop :=
  exists x y, a = Some x /\ b = Some y /\ x <> ""%string /\ y <> ""%string
    /\ JS.toUpperCase (JS.trim x) = JS.toUpperCase (JS.trim y).

(* ===================================================================== *)
(** * Properties                                                          *)
(* ===================================================================== *)

(** ** JavaScript primitives on examples *)

Example parseInt_stops_at_letter : JS.parseInt " 007x" = Some 7%Z.
Proof. reflexivity. Qed.

Example parseInt_hexadecimal : JS.parseInt "0x1F" = Some 31%Z.
Proof. reflexivity. Qed.

Example parseInt_negative : JS.parseInt "-12" = Some (-12)%Z.
Proof. reflexivity. Qed.

Example parseInt_NaN : JS.parseInt "abc" = None /\ JS.parseInt "" = None.
Proof. split; reflexivity. Qed.

Example split_date : JS.split "/" "01/02/2003" = ["01"; "02"; "2003"]%string.
Proof. reflexivity. Qed.

Example split_slashes : JS.split "/" "//" = [""; ""; ""]%string.
Proof. reflexivity. Qed.

Example split_empty : JS.split "/" "" = [""]%string.
Proof. reflexivity. Qed.

Example trim_both_ends : JS.trim "  a b  " = "a b"%string.
Proof. reflexivity. Qed.

Example toUpperCase_letters_only : JS.toUpperCase "aZ9{`" = "AZ9{`"%string.
Proof. reflexivity. Qed.

Example sort_is_stable :
  JS.sort (fun a b => (fst a - fst b)%Z)
    [(2%Z, "x"%string); (1%Z, "y"%string); (2%Z, "z"%string);
     (1%Z, "w"%string)]
  = [(1%Z, "y"%string); (1%Z, "w"%string); (2%Z, "x"%string);
     (2%Z, "z"%string)].
Proof. reflexivity. Qed.

Example epoch_day : JSDate.civil_from_days 0 = (1970, 0, 1)%Z.
Proof. reflexivity. Qed.

Example leap_day :
  JSDate.days_from_civil 2024 1 29 = 19782%Z
  /\ JSDate.civil_from_days 19782 = (2024, 1, 29)%Z.
Proof. vm_compute. split; reflexivity. Qed.

Example day_before_epoch : JSDate.civil_from_days (-1) = (1969, 11, 31)%Z.
Proof. vm_compute. reflexivity. Qed.

Example parse_date_only : JSDate.parse "2025-01-01" = Some 1735689600000%Z.
Proof. vm_compute. reflexivity. Qed.

(** Months and days out of range carry over, and a two-digit year is a
    year of the twentieth century. *)
Example of_ymd_normalises :
  JSDate.local_civil 0 1740960000000 = (2025, 2, 3)%Z
  /\ JSDate.of_ymd 0 (Some 2025%Z) (Some 1%Z) (Some 31%Z) = Some 1740960000000%Z
  /\ JSDate.getFullYear 0 (JSDate.of_ymd 0 (Some 23%Z) (Some 0%Z) (Some 1%Z))
     = Some 1923%Z.
Proof. vm_compute. repeat split; reflexivity. Qed.

(** ** Arrays *)

Lemma slice_last_rev {A} n (l : list A) :
  JS.slice_last n l = rev (firstn n (rev l)).
Proof.
  unfold JS.slice_last. now rewrite firstn_rev, rev_involutive.
Qed.

Lemma slice_last_length {A} n (l : list A) :
  List.length (JS.slice_last n l) = Nat.min n (List.length l).
Proof.
  unfold JS.slice_last. rewrite length_skipn. lia.
Qed.

Lemma slice_last_snoc {A} n (l : list A) x :
  JS.slice_last (S n) (l ++ [x]) = JS.slice_last n l ++ [x].
Proof.
  rewrite !slice_last_rev, rev_app_distr. reflexivity.
Qed.

Lemma slice_last_idem_app {A} n (a b : list A) :
  JS.slice_last n (JS.slice_last n a ++ b) = JS.slice_last n (a ++ b).
Proof.
  rewrite !slice_last_rev, !rev_app_distr, rev_involutive.
  f_equal. rewrite !firstn_app, firstn_firstn.
  f_equal. f_equal. lia.
Qed.

Lemma slice_last_evicts_head {A} n (l : list A) x :
  List.length l = n -> JS.slice_last n (x :: l) = l.
Proof.
  intros Hlen. unfold JS.slice_last. simpl List.length.
  replace (S (List.length l) - n) with 1 by lia. reflexivity.
Qed.

Lemma rev_case {A} (l : list A) : l = [] \/ exists l' x, l = l' ++ [x].
Proof.
  induction l as [|x l' _] using rev_ind; [now left|right; eauto].
Qed.

Lemma last_cons {A} (l : list A) x d : last (x :: l) d = last l x.
Proof.
  revert x d. induction l as [|y l IH]; intros x d; [reflexivity|].
  change (last (x :: y :: l) d) with (last (y :: l) d).
  now rewrite (IH y d), (IH y x).
Qed.

(** ** History store *)

Lemma undo_snoc l x p f :
  undo {| past := l ++ [x]; present := p; future := f |}
  = {| past := l; present := x; future := p :: f |}.
Proof.
  unfold undo. cbn [past present future].
  destruct (l ++ [x]) as [|p0 ps] eqn:E.
  - now destruct l.
  - rewrite <- E, last_last. unfold JS.slice_init.
    rewrite length_app. cbn [List.length].
    replace (List.length l + 1 - 1) with (List.length l + 0) by lia.
    now rewrite firstn_app_2, app_nil_r.
Qed.

Lemma commit_fresh s h :
  same_ref s (present h) = false ->
  commit s h
  = {| past := JS.slice_last 49 (past h) ++ [present h];
       present := s;
       future := [] |}.
Proof.
  intros Hne. unfold commit, setPassportsWithHistory, nextPresent.
  now rewrite Hne, slice_last_snoc.
Qed.

(** C1. For every history state and every snapshot [S] that is not the
    present array itself, [commit(S)] followed by [undo()] has the
    pre-commit snapshot as its present, and a following [redo()] has [S]
    as its present (the same arrays, hence the same records). *)
Theorem commit_undo_redo (h : HistoryState) (S : Snapshot) :
  same_ref S (present h) = false ->
  present (undo (commit S h)) = present h /\
  present (redo (undo (commit S h))) = S.
Proof.
  intros Hne. rewrite (commit_fresh _ _ Hne), undo_snoc. split; reflexivity.
Qed.

Lemma setPassportsWithHistory_bounded np h :
  bounded h -> bounded (setPassportsWithHistory np true h).
Proof.
  unfold bounded, setPassportsWithHistory. intros Hb.
  destruct (same_ref _ _); [exact Hb|].
  cbn [past future]. rewrite slice_last_length. cbn [List.length]. lia.
Qed.

Lemma undo_bounded h : bounded h -> bounded (undo h).
Proof.
  destruct h as [pa pr fu]. unfold bounded. cbn [past future]. intros Hb.
  destruct (rev_case pa) as [E|[ps [x E]]]; subst pa.
  - exact Hb.
  - rewrite undo_snoc. cbn [past future List.length].
    rewrite length_app in Hb. cbn [List.length] in Hb. lia.
Qed.

Lemma redo_bounded h : bounded h -> bounded (redo h).
Proof.
  destruct h as [pa pr [|n nf]]; unfold bounded, redo;
    cbn [past future List.length]; intros Hb; [exact Hb|].
  rewrite length_app. cbn [List.length]. lia.
Qed.

(** The loop of [processFiles] replaces the present and nothing else of
    the history. *)
Lemma processLoop_past_future env work : forall i st,
  past (history (processLoop env i work st)) = past (history st) /\
  future (history (processLoop env i work st)) = future (history st).
Proof.
  induction work as [|[file ph] rest IH]; intros i st; [now split|].
  cbn [processLoop].
  destruct (IH (S i)
              (setProcessedCount (i + 1)
                 match extractPassportDetails env i file with
                 | Resolved details =>
                     fileCompleted (clock_at env i) (id ph) details st
                 | Rejected message => fileFailed (id ph) message st
                 end)) as [Hp Hf].
  rewrite Hp, Hf.
  destruct (extractPassportDetails env i file); now split.
Qed.

Lemma perform_bounded a st :
  bounded (history st) -> bounded (history (perform a st)).
Proof.
  intros Hb. destruct a; cbn [perform];
    try (apply setPassportsWithHistory_bounded; exact Hb);
    try exact Hb.
  - unfold processFiles. destruct (_ =? 0); [exact Hb|].
    cbn [setStatus history].
    destruct (processLoop_past_future env
                (combine files (placeholders_from env 0 files)) 0
                (addPlaceholders (placeholders_from env 0 files)
                   (setStatus PROCESSING
                      (setProcessedCount 0
                         (setTotalCount (List.length files) st)))))
      as [Hp Hf].
    unfold bounded. rewrite Hp, Hf.
    apply setPassportsWithHistory_bounded. exact Hb.
  - apply undo_bounded. exact Hb.
  - apply redo_bounded. exact Hb.
Qed.

Lemma reachable_bounded st : reachable st -> bounded (history st).
Proof.
  induction 1 as [|a st _ IH].
  - unfold bounded. cbn. lia.
  - now apply perform_bounded.
Qed.

Lemma commits_cons s ss h : commits (s :: ss) h = commits ss (commit s h).
Proof. reflexivity. Qed.

(** After a non-empty run of commits of arrays that each differ from the
    present one, [past] holds the last 50 of the earlier presents. *)
Lemma commits_past ss : forall h s,
  NoDup (map snap_ref (present h :: s :: ss)) ->
  past (commits (s :: ss) h)
  = JS.slice_last 50 (past h ++ removelast (present h :: s :: ss)) /\
  present (commits (s :: ss) h) = last ss s.
Proof.
  induction ss as [|s' ss IH]; intros h s Hnd.
  - cbn [commits fold_left removelast last].
    unfold commit, setPassportsWithHistory, nextPresent, same_ref.
    inversion Hnd as [|? ? Hin _]; subst.
    destruct (Nat.eqb_spec (snap_ref s) (snap_ref (present h))) as [E|_].
    + exfalso. apply Hin. left. now symmetry.
    + now split.
  - rewrite commits_cons.
    assert (Hne : same_ref s (present h) = false).
    { unfold same_ref. apply Nat.eqb_neq. intros E.
      inversion Hnd as [|? ? Hin _]; subst. apply Hin. left. now symmetry. }
    assert (Hnd' : NoDup (map snap_ref (s :: s' :: ss))).
    { now inversion Hnd. }
    pose proof (IH (commit s h) s') as IH'.
    assert (Hp : present (commit s h) = s).
    { unfold commit, setPassportsWithHistory, nextPresent. now rewrite Hne. }
    rewrite Hp in IH'. destruct (IH' Hnd') as [Hpast Hpres].
    split.
    + rewrite Hpast. unfold commit at 1, setPassportsWithHistory, nextPresent.
      rewrite Hne. cbn [past].
      rewrite slice_last_idem_app, <- app_assoc. reflexivity.
    + rewrite Hpres. symmetry. apply last_cons.
Qed.

(** C3. The past stack never exceeds 50 entries in any state the
    component can reach; committing 51 pairwise distinct snapshots leaves
    exactly 50 entries in [past], the 50 most recent of the earlier
    presents; and a commit on a full stack evicts its first, oldest,
    entry. *)
Theorem past_capped_at_50 :
  (forall st, reachable st -> List.length (past (history st)) <= 50) /\
  (forall h ss,
      NoDup (map snap_ref (present h :: ss)) -> List.length ss = 51 ->
      List.length (past (commits ss h)) = 50 /\
      past (commits ss h)
      = JS.slice_last 50 (past h ++ removelast (present h :: ss))) /\
  (forall h s oldest rest,
      same_ref s (present h) = false ->
      past h = oldest :: rest -> List.length (past h) = 50 ->
      past (commit s h) = rest ++ [present h]).
Proof.
  split; [|split].
  - intros st Hr. pose proof (reachable_bounded st Hr) as Hb.
    unfold bounded in Hb. lia.
  - intros h ss Hnd Hlen.
    destruct ss as [|s ss]; [discriminate|].
    destruct (commits_past ss h s Hnd) as [Hpast _].
    split; [|exact Hpast].
    rewrite Hpast, slice_last_length, length_app.
    assert (List.length (removelast (present h :: s :: ss)) = 51).
    { rewrite removelast_firstn_len, length_firstn. cbn [List.length] in *. lia. }
    lia.
  - intros h s oldest rest Hne Hpast Hlen.
    unfold commit, setPassportsWithHistory, nextPresent. rewrite Hne.
    cbn [past].
    rewrite Hpast in *. cbn [app]. apply slice_last_evicts_head.
    rewrite length_app. cbn [List.length] in *. lia.
Qed.

Lemma past_capped_at_50_witness :
  List.length
    (past (commits (map (fun n => mkSnapshot n []) (seq 1 51))
                   (history initial))) = 50.
Proof.
  apply (proj1 (proj2 past_capped_at_50)).
  - change (NoDup (seq 0 52)). apply seq_NoDup.
  - reflexivity.
Defined.

Lemma commit_undo_redo_witness :
  let h := {| past := []; present := mkSnapshot 0 []; future := [] |} in
  let S := mkSnapshot 1 [] in
  present (undo (commit S h)) = present h /\
  present (redo (undo (commit S h))) = S.
Proof.
  intros h S. apply commit_undo_redo. reflexivity.
Defined.

(** ** The heap of arrays *)

Lemma below_mono n m h : n <= m -> below n h -> below m h.
Proof.
  intros Hle (Hp & Hc & Hf). repeat split.
  - eapply Forall_impl; [|exact Hp]. cbn. intros; lia.
  - lia.
  - eapply Forall_impl; [|exact Hf]. cbn. intros; lia.
Qed.

Lemma Forall_slice_last {A} (P : A -> Prop) n l :
  Forall P l -> Forall P (JS.slice_last n l).
Proof.
  intros H. unfold JS.slice_last. rewrite <- (firstn_skipn (List.length l - n) l) in H.
  apply Forall_app in H. tauto.
Qed.

Lemma setPassportsWithHistory_below np b n h :
  below n h -> snap_ref (nextPresent np h) < n ->
  below n (setPassportsWithHistory np b h).
Proof.
  intros (Hp & Hc & Hf) Hn. unfold setPassportsWithHistory.
  cbv zeta. destruct (same_ref _ _); [now repeat split|].
  repeat split; cbn [past present future].
  - apply Forall_slice_last, Forall_app. split; [exact Hp|]. now constructor.
  - exact Hn.
  - destruct b; [constructor|exact Hf].
Qed.

Lemma undo_below n h : below n h -> below n (undo h).
Proof.
  destruct h as [pa pr fu]. intros (Hp & Hc & Hf). cbn [past present future] in *.
  destruct (rev_case pa) as [E|[ps [x E]]]; subst pa.
  - now repeat split.
  - rewrite undo_snoc. apply Forall_app in Hp. destruct Hp as [Hps Hx].
    inversion Hx; subst. repeat split; cbn [past present future]; auto.
Qed.

Lemma redo_below n h : below n h -> below n (redo h).
Proof.
  destruct h as [pa pr [|x fu]]; intros (Hp & Hc & Hf);
    cbn [past present future] in *; [now repeat split|].
  inversion Hf; subst. unfold redo. repeat split; cbn [past present future]; auto.
  apply Forall_app. split; [exact Hp|]. now constructor.
Qed.

(** The three ways out of [updatePassport_next]: a completed target, a
    target that is not completed, no target. *)
Ltac case_target :=
  match goal with
  | |- context [find ?f ?l] =>
      destruct (find f l) as [?t|];
      [match goal with
       | |- context [Status_eqb (status ?x) Completed] =>
           destruct (Status_eqb (status x) Completed)
       end|]
  end.

Lemma updatePassport_next_ref clk r id0 f v prev :
  snap_ref (updatePassport_next clk r id0 f v prev) < r + 2.
Proof.
  unfold updatePassport_next. case_target; cbn; lia.
Qed.

Lemma fileCompleted_ok clk pid d st : heap_ok st -> heap_ok (fileCompleted clk pid d st).
Proof.
  unfold heap_ok. intros H.
  destruct (below_mono (next_ref st) (next_ref st + 1) _ ltac:(lia) H) as (Hp & Hc & Hf).
  repeat split; cbn; auto; lia.
Qed.

Lemma fileFailed_ok pid m st : heap_ok st -> heap_ok (fileFailed pid m st).
Proof.
  unfold heap_ok. intros H.
  destruct (below_mono (next_ref st) (next_ref st + 1) _ ltac:(lia) H) as (Hp & Hc & Hf).
  repeat split; cbn; auto; lia.
Qed.

Lemma addPlaceholders_ok phs st : heap_ok st -> heap_ok (addPlaceholders phs st).
Proof.
  unfold heap_ok. intros H. cbn.
  apply setPassportsWithHistory_below; [|cbn; lia].
  eapply below_mono; [|exact H]. lia.
Qed.

Lemma processLoop_ok env work : forall i st,
  heap_ok st -> heap_ok (processLoop env i work st).
Proof.
  induction work as [|[file ph] rest IH]; intros i st H; [exact H|].
  cbn [processLoop]. apply IH.
  destruct (extractPassportDetails env i file).
  - exact (fileCompleted_ok (clock_at env i) (id ph) details st H).
  - exact (fileFailed_ok (id ph) message st H).
Qed.

Lemma perform_ok a st : heap_ok st -> heap_ok (perform a st).
Proof.
  intros H. destruct a; cbn [perform].
  - unfold heap_ok, onChange, updatePassport. cbn.
    apply setPassportsWithHistory_below.
    + eapply below_mono; [|exact H]. lia.
    + cbn. apply updatePassport_next_ref.
  - unfold heap_ok, deletePassport. cbn.
    apply setPassportsWithHistory_below; [|cbn; lia].
    eapply below_mono; [|exact H]. lia.
  - unfold heap_ok, onClear. cbn.
    apply setPassportsWithHistory_below; [|cbn; lia].
    eapply below_mono; [|exact H]. lia.
  - now apply addPlaceholders_ok.
  - now apply fileCompleted_ok.
  - now apply fileFailed_ok.
  - unfold processFiles. destruct (_ =? 0); [exact H|].
    change (heap_ok
              (processLoop env 0 (combine files (placeholders_from env 0 files))
                 (addPlaceholders (placeholders_from env 0 files)
                    (setStatus PROCESSING
                       (setProcessedCount 0
                          (setTotalCount (List.length files) st)))))).
    apply processLoop_ok, addPlaceholders_ok. exact H.
  - now apply undo_below.
  - now apply redo_below.
Qed.

Lemma reachable_heap_ok st : reachable st -> heap_ok st.
Proof.
  induction 1 as [|a st _ IH]; [|now apply perform_ok].
  repeat split; cbn; auto.
Qed.

Lemma manifest_of_ok items : heap_ok (manifest_of items).
Proof. repeat split; cbn; auto. Qed.

(** ** Duplicate detector *)

Lemma same_text_sym a b : same_text a b = same_text b a.
Proof.
  destruct a as [x|], b as [y|]; cbn; try reflexivity.
  rewrite (String.eqb_sym (JS.toUpperCase (JS.trim x))).
  now destruct (JS.truthy_string x), (JS.truthy_string y).
Qed.

Lemma same_text_truthy a b :
  same_text a b = true -> JS.truthy a = true /\ JS.truthy b = true.
Proof.
  destruct a as [x|], b as [y|]; cbn; try discriminate.
  destruct (JS.truthy_string x), (JS.truthy_string y); cbn; try discriminate.
  now split.
Qed.

(** A match of the candidate against one record of the list makes the
    whole check succeed. *)
Lemma flags_checkIsDuplicate {A} `{Identified A} (details : A) currentId list p :
  In p list -> flags details currentId p = true ->
  checkIsDuplicate details currentId list = true.
Proof.
  intros Hin Hfl. unfold checkIsDuplicate.
  assert (Hguard : negb (JS.truthy (get_passportNumber details))
                   && (negb (JS.truthy (get_firstName details))
                       || negb (JS.truthy (get_lastName details))) = false).
  { unfold flags in Hfl.
    destruct (String.eqb _ _); [discriminate|].
    destruct (negb (Status_eqb _ _)); [discriminate|].
    apply orb_true_iff in Hfl. destruct Hfl as [Hpn|Hname].
    - apply same_text_truthy in Hpn. destruct Hpn as [-> _]. reflexivity.
    - apply andb_true_iff in Hname. destruct Hname as [Hf Hl].
      apply same_text_truthy in Hf, Hl. destruct Hf as [-> _], Hl as [-> _].
      now rewrite andb_false_r. }
  rewrite Hguard. apply existsb_exists. eauto.
Qed.

(** C7. Duplicate detection is symmetric: when two completed records [A]
    and [B] of one snapshot are such that [B] matches the candidate [A]
    (checked with [A]'s id excluded), then [A] matches the candidate [B]
    (checked with [B]'s id excluded), and the check flags both. *)
Theorem duplicate_symmetric (list : list PassportData) (A B : PassportData) :
  In A list -> In B list ->
  status A = Completed -> status B = Completed ->
  flags A (id A) B = true ->
  flags B (id B) A = true
  /\ checkIsDuplicate A (id A) list = true
  /\ checkIsDuplicate B (id B) list = true.
Proof.
  intros HA HB HsA HsB Hfl.
  assert (Hsym : flags B (id B) A = true).
  { unfold flags in *. cbn [get_passportNumber get_firstName get_lastName
                            Identified_PassportData] in *.
    rewrite String.eqb_sym.
    destruct (String.eqb (id B) (id A)); [discriminate|].
    rewrite HsA, HsB in *. cbn [Status_eqb negb] in *.
    now rewrite (same_text_sym (passportNumber B)),
                (same_text_sym (firstName B)), (same_text_sym (lastName B)). }
  split; [exact Hsym|]. split.
  - exact (flags_checkIsDuplicate A (id A) list B HB Hfl).
  - exact (flags_checkIsDuplicate B (id B) list A HA Hsym).
Qed.

Lemma duplicate_symmetric_witness :
  let A := sample "a" "X1" "ANN" "LEE" in
  let B := sample "b" " x1 " "BOB" "RAY" in
  flags B (id B) A = true
  /\ checkIsDuplicate A (id A) [A; B] = true
  /\ checkIsDuplicate B (id B) [A; B] = true.
Proof.
  intros A B. apply duplicate_symmetric.
  - left. reflexivity.
  - right. left. reflexivity.
  - reflexivity.
  - reflexivity.
  - reflexivity.
Defined.

(** ** Deletion *)

Lemma Subseq_filter {A} (f : A -> bool) l : Subseq (filter f l) l.
Proof.
  induction l as [|x l IH]; cbn; [constructor|].
  destruct (f x); now constructor.
Qed.

Lemma Subseq_filter_greatest {A} (f : A -> bool) l1 l2 :
  Subseq l1 l2 -> Forall (fun x => f x = true) l1 -> Subseq l1 (filter f l2).
Proof.
  induction 1 as [|x l1 l2 _ IH|x l1 l2 _ IH]; intros Hall; cbn.
  - constructor.
  - inversion Hall as [|? ? Hx Hrest]; subst. rewrite Hx.
    constructor. now apply IH.
  - destruct (f x); [constructor|]; now apply IH.
Qed.

Lemma deletePassport_items id0 st :
  heap_ok st ->
  snap_items (present (history (deletePassport id0 st)))
  = filter (fun p => negb (String.eqb (id p) id0))
           (snap_items (present (history st))).
Proof.
  intros (_ & Hc & _). unfold deletePassport. cbn.
  unfold setPassportsWithHistory, nextPresent, same_ref. cbn.
  destruct (Nat.eqb_spec (next_ref st) (snap_ref (present (history st))));
    [lia|reflexivity].
Qed.

(** C10. Deleting a passenger removes exactly the records whose id is the
    given one: a record is in the resulting snapshot if and only if it was
    in the snapshot with another id; the result keeps the order of the
    snapshot; and every selection of records with other ids taken in order
    from the snapshot survives in the result, so that no other record is
    lost, changed or moved. *)
Theorem deletePassport_frame (st : AppState) (id0 : string) :
  heap_ok st ->
  let before := snap_items (present (history st)) in
  let after := snap_items (present (history (deletePassport id0 st))) in
  (forall p, In p after <-> In p before /\ id p <> id0)
  /\ Subseq after before
  /\ (forall l, Subseq l before -> Forall (fun p => id p <> id0) l ->
                Subseq l after).
Proof.
  intros Hok before after. subst before after.
  rewrite (deletePassport_items id0 st Hok).
  split; [|split].
  - intros p. rewrite filter_In, negb_true_iff, String.eqb_neq. tauto.
  - apply Subseq_filter.
  - intros l Hsub Hall. apply Subseq_filter_greatest; [exact Hsub|].
    eapply Forall_impl; [|exact Hall]. cbn. intros p Hp.
    now rewrite negb_true_iff, String.eqb_neq.
Qed.

Lemma deletePassport_frame_witness :
  let before := two_passengers in
  let after :=
    snap_items (present (history
      (deletePassport "a" (manifest_of two_passengers)))) in
  (forall p, In p after <-> In p before /\ id p <> "a"%string)
  /\ Subseq after before
  /\ (forall l, Subseq l before -> Forall (fun p => id p <> "a"%string) l ->
                Subseq l after).
Proof.
  exact (deletePassport_frame (manifest_of two_passengers) "a"
           (manifest_of_ok two_passengers)).
Defined.

Example deletePassport_first :
  snap_items (present (history
    (deletePassport "a" (manifest_of two_passengers))))
  = [sample "b" "X2" "BOB" "RAY"].
Proof. reflexivity. Qed.

(** ** Derived attribute calculator *)

Section Calendar.

Local Open Scope Z_scope.

(** The year of the era is recovered from the day of the era. *)
Lemma year_of_era yoe doy :
  0 <= yoe <= 399 -> 0 <= doy <= 365 ->
  (doy = 365 -> yoe mod 4 = 3 /\ (yoe mod 100 <> 99 \/ yoe = 399)) ->
  let doe := yoe * 365 + yoe / 4 - yoe / 100 + doy in
  0 <= doe <= 146096 /\
  (doe - doe / 1460 + doe / 36524 - doe / 146096) / 365 = yoe.
Proof.
  intros. subst doe. Z.div_mod_to_equations. lia.
Qed.

(** The month and the day are recovered from the day of the year, which
    starts on 1 March. *)
Lemma month_of_doy mp d :
  0 <= mp <= 11 -> 1 <= d <= 31 ->
  (mp = 1 \/ mp = 3 \/ mp = 6 \/ mp = 8 -> d <= 30) ->
  (mp = 11 -> d <= 29) ->
  let doy := (153 * mp + 2) / 5 + d - 1 in
  (5 * doy + 2) / 153 = mp /\ doy - (153 * ((5 * doy + 2) / 153) + 2) / 5 + 1 = d /\ 0 <= doy <= 365
  /\ (doy = 365 -> mp = 11 /\ d = 29).
Proof.
  intros. subst doy. Z.div_mod_to_equations. lia.
Qed.

Lemma leap_yoe year :
  leap year = true ->
  ((year - 1) mod 400) mod 4 = 3 /\ (((year - 1) mod 400) mod 100 <> 99 \/ (year - 1) mod 400 = 399).
Proof.
  unfold leap. intros H.
  apply orb_true_iff in H. destruct H as [H|H].
  - apply andb_true_iff in H. destruct H as [H4 H100].
    apply Z.eqb_eq in H4. apply negb_true_iff, Z.eqb_neq in H100.
    Z.div_mod_to_equations. lia.
  - apply Z.eqb_eq in H. Z.div_mod_to_equations. lia.
Qed.

(** On the days of the calendar, [civil_from_days] inverts
    [days_from_civil]. *)
Lemma civil_roundtrip year month date :
  0 <= month <= 11 -> 1 <= date <= days_in_month year month ->
  JSDate.civil_from_days (JSDate.days_from_civil year month date) = (year, month, date).
Proof.
  intros Hm Hd.
  unfold JSDate.days_from_civil.
  set (y := if month <? 2 then year - 1 else year).
  set (mp := if month <? 2 then month + 10 else month - 2).
  set (yoe := y - y / 400 * 400).
  set (doy := (153 * mp + 2) / 5 + date - 1).
  assert (Hmp : 0 <= mp <= 11) by (subst mp; destruct (Z.ltb_spec month 2); lia).
  assert (Hyoe : 0 <= yoe <= 399) by (subst yoe; Z.div_mod_to_equations; lia).
  assert (Hdim : 1 <= date <= 31 /\ (mp = 1 \/ mp = 3 \/ mp = 6 \/ mp = 8 -> date <= 30)
                 /\ (mp = 11 -> date <= 29) /\ (mp = 11 -> date = 29 -> leap year = true)).
  { subst mp. unfold days_in_month in Hd.
    destruct (Z.eqb_spec month 1); [destruct (leap year)|];
    destruct (Z.eqb_spec month 3); destruct (Z.eqb_spec month 5);
    destruct (Z.eqb_spec month 8); destruct (Z.eqb_spec month 10);
    cbn [orb] in Hd; destruct (Z.ltb_spec month 2); lia. }
  destruct Hdim as (Hd31 & Hd30 & Hd29 & Hleap).
  destruct (month_of_doy mp date Hmp Hd31 Hd30 Hd29) as (Emp & Ed & Hdoy & Hdoy365).
  fold doy in Emp, Ed, Hdoy, Hdoy365.
  assert (Hfeb : doy = 365 -> yoe mod 4 = 3 /\ (yoe mod 100 <> 99 \/ yoe = 399)).
  { intros E. destruct (Hdoy365 E) as [E11 E29].
    pose proof (leap_yoe year (Hleap E11 E29)) as L.
    assert (y = year - 1) by (subst y mp; destruct (Z.ltb_spec month 2); lia).
    assert (yoe = (year - 1) mod 400) by (subst yoe; Z.div_mod_to_equations; lia).
    congruence. }
  destruct (year_of_era yoe doy Hyoe Hdoy Hfeb) as (Hdoe & Eyoe).
  set (doe := yoe * 365 + yoe / 4 - yoe / 100 + doy) in *.
  unfold JSDate.civil_from_days.
  replace (y / 400 * 146097 + doe - 719468 + 719468) with (doe + y / 400 * 146097) by lia.
  rewrite Z.div_add by lia. rewrite (Z.div_small doe) by lia. cbn [Z.add].
  replace (doe + y / 400 * 146097 - y / 400 * 146097) with doe by lia.
  rewrite Eyoe. fold doe.
  replace (doe - (365 * yoe + yoe / 4 - yoe / 100)) with doy by (subst doe; lia).
  rewrite Emp in Ed |- *. rewrite Ed.
  assert (Em : (if mp <? 10 then mp + 2 else mp - 10) = month).
  { subst mp. destruct (Z.ltb_spec month 2).
    - destruct (Z.ltb_spec (month + 10) 10); lia.
    - destruct (Z.ltb_spec (month - 2) 10); lia. }
  rewrite Em.
  assert (Ey : (if month <? 2 then yoe + y / 400 * 400 + 1 else yoe + y / 400 * 400) = year).
  { subst yoe y. destruct (Z.ltb_spec month 2); lia. }
  rewrite Ey. reflexivity.
Qed.

Lemma MakeDay_valid year month date :
  0 <= month <= 11 ->
  JSDate.MakeDay year month date = JSDate.days_from_civil year month date.
Proof.
  intros Hm. unfold JSDate.MakeDay.
  rewrite (Z.div_small month 12), (Z.mod_small month 12), Z.add_0_r by lia.
  unfold JSDate.days_from_civil. lia.
Qed.

Lemma days_from_civil_bound year month date :
  0 <= month <= 11 -> 1 <= date <= 31 -> 100 <= year <= 200000 ->
  -700000 <= JSDate.days_from_civil year month date <= 73000000.
Proof.
  intros Hm Hd Hy. unfold JSDate.days_from_civil.
  destruct (Z.ltb_spec month 2); Z.div_mod_to_equations; lia.
Qed.

(** [new Date(y, m - 1, d)] of a day of the calendar is a valid date whose
    local day is that day. *)
Lemma of_ymd_valid zone year month date :
  100 <= year <= 200000 -> 1 <= month <= 12 ->
  1 <= date <= days_in_month year (month - 1) ->
  -1440 <= zone <= 1440 ->
  exists t,
    JSDate.of_ymd zone (Some year) (Some (month - 1)) (Some date) = Some t
    /\ JSDate.local_civil zone t = (year, month - 1, date).
Proof.
  intros Hy Hm Hd Hz.
  assert (Hd31 : 1 <= date <= 31).
  { unfold days_in_month in Hd.
    destruct (_ =? 1); [destruct (leap year)|destruct (_ || _)]; lia. }
  pose proof (days_from_civil_bound year (month - 1) date ltac:(lia) Hd31 Hy) as Hb.
  exists (JSDate.days_from_civil year (month - 1) date * JSDate.msPerDay
          - zone * JSDate.msPerMinute).
  split.
  - unfold JSDate.of_ymd, JSDate.MakeFullYear.
    replace ((0 <=? year) && (year <=? 99)) with false
      by (symmetry; apply andb_false_iff; right; apply Z.leb_gt; lia).
    rewrite MakeDay_valid by lia. unfold JSDate.TimeClip.
    replace (Z.abs _ <=? _) with true; [reflexivity|].
    symmetry. apply Z.leb_le. unfold JSDate.msPerDay, JSDate.msPerMinute. lia.
  - unfold JSDate.local_civil.
    replace (_ - _ + _) with (JSDate.days_from_civil year (month - 1) date * JSDate.msPerDay) by lia.
    rewrite Z.div_mul by (unfold JSDate.msPerDay; lia).
    apply civil_roundtrip; [lia|exact Hd].
Qed.

(** On a date of birth that is a day of the calendar, [age] is the age
    in whole years: the difference of the years, less one when the
    birthday of the current year is still to come. *)
Lemma age_whole_years clk parts d m y ty tm td :
  JS.parseInt (JS.at_index parts 0) = Some d ->
  JS.parseInt (JS.at_index parts 1) = Some m ->
  JS.parseInt (JS.at_index parts 2) = Some y ->
  100 <= y <= 200000 -> 1 <= m <= 12 -> 1 <= d <= days_in_month y (m - 1) ->
  -1440 <= tz clk <= 1440 ->
  JSDate.local_civil (tz clk) (now clk) = (ty, tm, td) ->
  age clk parts
  = Some (if (tm <? m - 1) || ((tm =? m - 1) && (td <? d))
          then ty - y - 1 else ty - y).
Proof.
  intros Pd Pm Py Hy Hm Hd Hz Htoday.
  destruct (of_ymd_valid (tz clk) y m d Hy Hm Hd Hz) as (t & Ht & Hciv).
  unfold age. rewrite Pd, Pm, Py. cbn [JS.sub]. rewrite Ht.
  unfold JSDate.getFullYear, JSDate.getMonth, JSDate.getDate.
  cbn [option_map]. rewrite Htoday, Hciv. cbn [fst snd JS.sub JS.lt JS.eq].
  destruct (Z.ltb_spec (tm - (m - 1)) 0), (Z.ltb_spec tm (m - 1)); try lia;
    cbn [orb]; try reflexivity.
  destruct (Z.eqb_spec (tm - (m - 1)) 0), (Z.eqb_spec tm (m - 1)); try lia;
    cbn [andb]; [|reflexivity].
  now destruct (td <? d).
Qed.

End Calendar.

(** C6. When the date of birth does not split into exactly three
    components at ['/'], [deriveAttributes] returns an empty title and
    ADULT.  Otherwise, with [a] the age that the function computes for the
    current date, the type is INFANT when [a < 2], CHILD when
    [2 <= a < 12] (so at exactly 2) and ADULT when [a >= 12]; and for a
    date of birth [d/m/y] that is a day of the calendar, [a] is the age in
    whole years on the current local day. *)
Theorem deriveAttributes_classifies (clk : Clock) (dob gender : string) :
  (List.length (JS.split "/" dob) <> 3 ->
   deriveAttributes clk dob gender
   = {| d_title := ""; d_passengerType := ADULT |})
  /\ (List.length (JS.split "/" dob) = 3 ->
      forall a : Z, age clk (JS.split "/" dob) = Some a ->
        ((a < 2)%Z ->
         d_passengerType (deriveAttributes clk dob gender) = INFANT)
        /\ ((2 <= a < 12)%Z ->
            d_passengerType (deriveAttributes clk dob gender) = CHILD)
        /\ ((12 <= a)%Z ->
            d_passengerType (deriveAttributes clk dob gender) = ADULT))
  /\ (forall d m y ty tm td : Z,
        JS.parseInt (JS.at_index (JS.split "/" dob) 0) = Some d ->
        JS.parseInt (JS.at_index (JS.split "/" dob) 1) = Some m ->
        JS.parseInt (JS.at_index (JS.split "/" dob) 2) = Some y ->
        (100 <= y <= 200000)%Z -> (1 <= m <= 12)%Z ->
        (1 <= d <= days_in_month y (m - 1))%Z ->
        (-1440 <= tz clk <= 1440)%Z ->
        JSDate.local_civil (tz clk) (now clk) = (ty, tm, td) ->
        age clk (JS.split "/" dob)
        = Some (if (tm <? m - 1) || ((tm =? m - 1) && (td <? d))
                then ty - y - 1 else ty - y)%Z).
Proof.
  split; [|split].
  - destruct dob as [|c dob']; [reflexivity|].
    unfold deriveAttributes. cbn [JS.truthy_string negb].
    intros Hlen. apply Nat.eqb_neq in Hlen. now rewrite Hlen.
  - destruct dob as [|c dob']; [discriminate|].
    unfold deriveAttributes. cbn [JS.truthy_string negb].
    set (parts := JS.split "/" (String c dob')).
    intros Hlen a Ha. rewrite Hlen, Ha.
    cbn [Nat.eqb negb d_passengerType JS.lt].
    repeat split; intros Hr.
    + assert (E : (a <? 2)%Z = true) by (apply Z.ltb_lt; lia). now rewrite E.
    + assert (E1 : (a <? 2)%Z = false) by (apply Z.ltb_ge; lia).
      assert (E2 : (a <? 12)%Z = true) by (apply Z.ltb_lt; lia).
      now rewrite E1, E2.
    + assert (E1 : (a <? 2)%Z = false) by (apply Z.ltb_ge; lia).
      assert (E2 : (a <? 12)%Z = false) by (apply Z.ltb_ge; lia).
      now rewrite E1, E2.
  - intros d m y ty tm td. apply age_whole_years.
Qed.

Lemma deriveAttributes_classifies_witness :
  d_passengerType (deriveAttributes clock_2025 "15/06/2023" "MALE") = CHILD
  /\ age clock_2025 (JS.split "/" "15/06/2023") = Some 2%Z.
Proof.
  split.
  - apply (proj1 (proj2 (deriveAttributes_classifies clock_2025 "15/06/2023"
                           "MALE")) eq_refl 2%Z eq_refl).
    lia.
  - apply (proj2 (proj2 (deriveAttributes_classifies clock_2025 "15/06/2023"
                           "MALE")) 15 6 2023 2025 5 15)%Z;
      try reflexivity; try (vm_compute; split; discriminate).
Defined.

(** The examples of the specification: born 01/01/2023 and seen in 2025
    is a CHILD titled MR; an unparseable date gives an ADULT without
    title. *)
Example deriveAttributes_child :
  deriveAttributes clock_2025 "01/01/2023" "MALE"
  = {| d_title := "MR"; d_passengerType := CHILD |}.
Proof. vm_compute. reflexivity. Qed.

Example deriveAttributes_unparseable :
  deriveAttributes clock_2025 "abc" "MALE"
  = {| d_title := ""; d_passengerType := ADULT |}.
Proof. vm_compute. reflexivity. Qed.

(** The day before the second birthday is still an INFANT. *)
Example deriveAttributes_infant :
  deriveAttributes clock_2025 "16/06/2023" "female"
  = {| d_title := "MISS"; d_passengerType := INFANT |}.
Proof. vm_compute. reflexivity. Qed.

(** Three components that are not numbers: the age is NaN, every
    comparison fails, and the result is an ADULT with a title. *)
Example deriveAttributes_NaN :
  deriveAttributes clock_2025 "a/b/c" "MALE"
  = {| d_title := "MR"; d_passengerType := ADULT |}.
Proof. vm_compute. reflexivity. Qed.

(** ** Field edits *)

Lemma updatePassport_items clk id0 field value st :
  heap_ok st ->
  snap_items (present (history (updatePassport clk id0 field value st)))
  = edited clk id0 field value (snap_items (present (history st))).
Proof.
  intros (_ & Hc & _). unfold updatePassport, edited. cbn.
  unfold setPassportsWithHistory, nextPresent, same_ref.
  set (nxt := updatePassport_next clk (next_ref st) id0 field value
                (present (history st))).
  assert (Hr : next_ref st <= snap_ref nxt).
  { subst nxt. unfold updatePassport_next. case_target; cbn; lia. }
  destruct (Nat.eqb_spec (snap_ref nxt) (snap_ref (present (history st))));
    [lia|].
  subst nxt. cbn [present]. unfold updatePassport_next. cbn [snap_items].
  case_target; reflexivity.
Qed.

Lemma edit_record_id clk id0 field value p :
  id (edit_record clk id0 field value p) = id p.
Proof.
  unfold edit_record. destruct (negb _); [reflexivity|]. now destruct field.
Qed.

Lemma edit_record_status clk id0 field value p :
  status (edit_record clk id0 field value p) = status p.
Proof.
  unfold edit_record. destruct (negb _); [reflexivity|]. now destruct field.
Qed.

Lemma edit_record_isDuplicate clk id0 field value p :
  isDuplicate (edit_record clk id0 field value p) = isDuplicate p.
Proof.
  unfold edit_record. destruct (negb _); [reflexivity|]. now destruct field.
Qed.

Lemma edit_record_other clk id0 field value p :
  id p <> id0 -> edit_record clk id0 field value p = p.
Proof.
  intros Hne. unfold edit_record. apply String.eqb_neq in Hne. now rewrite Hne.
Qed.

Lemma flags_mark {A} `{Identified A} (details : A) cur id0 b p :
  flags details cur (mark id0 b p) = flags details cur p.
Proof.
  unfold mark. now destruct (String.eqb (id p) id0).
Qed.

Lemma checkIsDuplicate_mark (t : PassportData) id0 b l :
  checkIsDuplicate (set_isDuplicate b t) id0 (map (mark id0 b) l)
  = checkIsDuplicate t id0 l.
Proof.
  unfold checkIsDuplicate.
  change (get_passportNumber (set_isDuplicate b t)) with (get_passportNumber t).
  change (get_firstName (set_isDuplicate b t)) with (get_firstName t).
  change (get_lastName (set_isDuplicate b t)) with (get_lastName t).
  destruct (_ && _); [reflexivity|].
  induction l as [|q l IH]; [reflexivity|].
  cbn [map existsb]. rewrite IH, flags_mark. reflexivity.
Qed.

(** With unique ids, [find] by id returns the record that has it. *)
Lemma find_unique id0 (l : list PassportData) : forall i p,
  NoDup (map id l) -> nth_error l i = Some p -> id p = id0 ->
  find (fun q => String.eqb (id q) id0) l = Some p.
Proof.
  induction l as [|q l IH]; intros i p Hnd Hnth Hid.
  - now destruct i.
  - inversion Hnd as [|? ? Hnotin Hnd']; subst. cbn [find].
    destruct i as [|i]; cbn in Hnth.
    + injection Hnth as ->. now rewrite String.eqb_refl.
    + destruct (String.eqb_spec (id q) (id p)) as [E|_].
      * exfalso. apply Hnotin. rewrite E. apply in_map.
        eapply nth_error_In; eassumption.
      * eapply IH; eauto.
Qed.

Lemma map_edit_record_ids clk id0 field value l :
  map id (map (edit_record clk id0 field value) l) = map id l.
Proof.
  rewrite map_map. apply map_ext. intros p. apply edit_record_id.
Qed.

Lemma mark_other id0 b p : id p <> id0 -> mark id0 b p = p.
Proof.
  intros Hne. unfold mark. apply String.eqb_neq in Hne. now rewrite Hne.
Qed.

Lemma edited_unfold clk id0 field value items :
  edited clk id0 field value items
  = let updatedList := map (edit_record clk id0 field value) items in
    match find (fun p => String.eqb (id p) id0) updatedList with
    | Some target =>
        if Status_eqb (status target) Completed
        then map (mark id0 (checkIsDuplicate target id0 updatedList)) updatedList
        else updatedList
    | None => updatedList
    end.
Proof.
  unfold edited, updatePassport_next. cbn [snap_items].
  case_target; reflexivity.
Qed.

Lemma Status_eqb_eq a b : Status_eqb a b = true <-> a = b.
Proof. destruct a, b; cbn; split; congruence. Qed.

(** C4, as the code has it. After a field edit, in a snapshot whose ids
    are unique: the snapshot keeps its length; every record with another
    id is unchanged, its flag included (the flags of siblings are not
    recomputed); the edited record, when its status is completed, carries
    the verdict of the duplicate rule on the post-edit snapshot; when its
    status is not completed its flag is unchanged. *)
Theorem edit_recomputes_own_flag (clk : Clock) (id0 : string) (field : Field)
    (value : string) (st : AppState) :
  heap_ok st ->
  NoDup (map id (snap_items (present (history st)))) ->
  let before := snap_items (present (history st)) in
  let after :=
    snap_items (present (history (updatePassport clk id0 field value st))) in
  List.length after = List.length before
  /\ forall i p, nth_error before i = Some p ->
       (id p <> id0 -> nth_error after i = Some p)
       /\ (id p = id0 ->
           exists p', nth_error after i = Some p' /\ id p' = id0
             /\ (status p = Completed ->
                 status p' = Completed
                 /\ isDuplicate p' = Some (checkIsDuplicate p' id0 after))
             /\ (status p <> Completed -> isDuplicate p' = isDuplicate p)).
Proof.
  intros Hok Hnd before after. subst after.
  rewrite (updatePassport_items clk id0 field value st Hok).
  fold before in Hnd |- *. rewrite edited_unfold. cbv zeta.
  set (ul := map (edit_record clk id0 field value) before).
  assert (Hul : forall i p, nth_error before i = Some p ->
                  nth_error ul i = Some (edit_record clk id0 field value p)).
  { intros i p Hp. subst ul. now apply map_nth_error. }
  split.
  - destruct (find _ ul) as [t|]; [destruct (Status_eqb _ _)|];
      subst ul; now rewrite ?length_map.
  - intros i p Hp. pose proof (Hul i p Hp) as Hq. split.
    + intros Hne. rewrite (edit_record_other clk id0 field value p Hne) in Hq.
      destruct (find _ ul) as [t|]; [destruct (Status_eqb _ _)|]; try exact Hq.
      erewrite map_nth_error by exact Hq. now rewrite mark_other.
    + intros Hid.
      set (t := edit_record clk id0 field value p) in *.
      assert (Hfind : find (fun q => String.eqb (id q) id0) ul = Some t).
      { apply (find_unique id0 ul i t); [|exact Hq|].
        - subst ul. now rewrite map_edit_record_ids.
        - subst t. now rewrite edit_record_id. }
      rewrite Hfind.
      assert (Hst : status t = status p) by apply edit_record_status.
      assert (Hidt : id t = id0) by (subst t; now rewrite edit_record_id).
      destruct (Status_eqb (status t) Completed) eqn:Hc.
      * exists (set_isDuplicate (checkIsDuplicate t id0 ul) t).
        split; [|split; [exact Hidt|split]].
        -- erewrite map_nth_error by exact Hq. unfold mark.
           now rewrite Hidt, String.eqb_refl.
        -- intros _. split.
           ++ apply Status_eqb_eq in Hc. exact Hc.
           ++ cbn [isDuplicate set_isDuplicate].
              now rewrite checkIsDuplicate_mark.
        -- intros Hnc. apply Status_eqb_eq in Hc. congruence.
      * exists t. split; [exact Hq|split; [exact Hidt|split]].
        -- intros Hcp. rewrite Hst, Hcp in Hc. discriminate.
        -- intros _. apply edit_record_isDuplicate.
Qed.

Lemma edit_recomputes_own_flag_witness :
  let after :=
    snap_items (present (history
      (updatePassport clock_2025 "a" F_passportNumber "X2"
         (manifest_of two_passengers)))) in
  exists p', nth_error after 0 = Some p' /\ id p' = "a"%string
    /\ isDuplicate p' = Some (checkIsDuplicate p' "a" after).
Proof.
  intros after.
  destruct (edit_recomputes_own_flag clock_2025 "a" F_passportNumber "X2"
              (manifest_of two_passengers)
              (manifest_of_ok two_passengers)) as [_ H].
  - cbn. repeat constructor; cbn; intuition discriminate.
  - destruct (proj2 (H 0 (sample "a" "X1" "ANN" "LEE") eq_refl) eq_refl)
      as (p' & Hn & Hi & Hc & _).
    exists p'. split; [exact Hn|]. split; [exact Hi|]. exact (proj2 (Hc eq_refl)).
Defined.

(** C4 as written fails: the two records agree with the rule before the
    edit; after the passport number of the first is set to that of the
    second, the second is a duplicate by the rule and is not flagged. *)
Lemma edit_leaves_sibling_flag_stale :
  let st := manifest_of two_passengers in
  let after :=
    snap_items (present (history
      (onChange ViaPassportTable clock_2025 "a" F_passportNumber "x2" st))) in
  flags_agree (snap_items (present (history st))) = true
  /\ flags_agree after = false
  /\ map flag after = [true; false]
  /\ map (fun p => checkIsDuplicate p (id p) after) after = [true; true].
Proof. vm_compute. repeat split; reflexivity. Qed.

Lemma upper_ascii_idem c : JS.upper_ascii (JS.upper_ascii c) = JS.upper_ascii c.
Proof.
  destruct c as [[] [] [] [] [] [] [] []]; reflexivity.
Qed.

Lemma toUpperCase_idem s : JS.toUpperCase (JS.toUpperCase s) = JS.toUpperCase s.
Proof.
  induction s as [|c s IH]; [reflexivity|].
  cbn [JS.toUpperCase]. now rewrite upper_ascii_idem, IH.
Qed.

Lemma get_field_mark field id0 b p :
  get_field field (mark id0 b p) = get_field field p.
Proof.
  unfold mark. destruct (String.eqb _ _); now destruct field.
Qed.

Lemma mark_id id0 b p : id (mark id0 b p) = id p.
Proof. unfold mark. now destruct (String.eqb _ _). Qed.

(** Every record of the snapshot after [updatePassport] is the edit of a
    record of the snapshot before, up to its flag. *)
Lemma edited_In clk id0 field value items p' :
  In p' (edited clk id0 field value items) ->
  exists p, In p items /\ id p' = id p
    /\ forall f, get_field f p'
                 = get_field f (edit_record clk id0 field value p).
Proof.
  rewrite edited_unfold. cbv zeta.
  set (ul := map (edit_record clk id0 field value) items).
  assert (Hul : forall q, In q ul ->
            exists p, In p items /\ q = edit_record clk id0 field value p).
  { intros q Hq. subst ul. apply in_map_iff in Hq.
    destruct Hq as (p & <- & Hp). eauto. }
  intros Hin.
  assert (Hcase : In p' ul
                  \/ exists b q, In q ul /\ p' = mark id0 b q).
  { destruct (find _ ul) as [t|]; [destruct (Status_eqb _ _)|]; auto.
    apply in_map_iff in Hin. destruct Hin as (q & <- & Hq). right. eauto. }
  destruct Hcase as [Hq|(b & q & Hq & ->)];
    destruct (Hul _ Hq) as (p & Hp & ->); exists p; split; auto.
  - split; [apply edit_record_id|reflexivity].
  - split; [now rewrite mark_id, edit_record_id|].
    intros f. apply get_field_mark.
Qed.

(** The sibling path of C9: a name typed into [PassportTable] is stored
    upper-cased. *)
Lemma passportTable_stores_upper_case clk id0 field input st p' :
  heap_ok st ->
  field = F_firstName \/ field = F_lastName ->
  In p' (snap_items (present (history
           (onChange ViaPassportTable clk id0 field input st)))) ->
  id p' = id0 ->
  exists v, get_field field p' = Some v /\ JS.toUpperCase v = v.
Proof.
  intros Hok Hf Hin Hid. unfold onChange in Hin.
  rewrite (updatePassport_items clk id0 field _ st Hok) in Hin.
  apply edited_In in Hin. destruct Hin as (p & _ & Hidp & Hget).
  exists (JS.toUpperCase input). rewrite Hget. unfold edit_record.
  rewrite <- Hidp, Hid, String.eqb_refl. cbn [negb].
  split; [|apply toUpperCase_idem].
  destruct Hf as [-> | ->]; reflexivity.
Qed.

(** C9 at its failing input: "john" typed into the first-name field of
    [DetailEditor] is stored as typed, which is not its upper-cased
    form. *)
Theorem detailEditor_stores_as_typed :
  let st := manifest_of two_passengers in
  let after :=
    snap_items (present (history
      (onChange ViaDetailEditor clock_2025 "a" F_firstName "john" st))) in
  map firstName after = [Some "john"%string; Some "BOB"%string]
  /\ JS.toUpperCase "john" = "JOHN"%string.
Proof. vm_compute. split; reflexivity. Qed.

(** ** The commit path *)

Lemma setPassportsWithHistory_fresh np h :
  same_ref (nextPresent np h) (present h) = false ->
  past (setPassportsWithHistory np true h)
  = JS.slice_last 50 (past h ++ [present h])
  /\ future (setPassportsWithHistory np true h) = [].
Proof.
  intros Hne. unfold setPassportsWithHistory. cbv zeta. now rewrite Hne.
Qed.

Lemma same_ref_above a b n : snap_ref b < n -> n <= snap_ref a -> same_ref a b = false.
Proof. intros. unfold same_ref. apply Nat.eqb_neq. lia. Qed.

(** C2, as the code has it. A field edit, a deletion, a clearing and the
    insertion of the placeholders of a batch go through the commit path:
    they push the prior present onto [past] and clear [future].  The
    per-file completion and error updates of a batch replace the present
    and leave [past] and [future] as they are. *)
Theorem mutation_paths (a : Action) (st : AppState) :
  heap_ok st ->
  (uses_commit a = true -> through_commit a st)
  /\ (is_file_update a = true ->
      past (history (perform a st)) = past (history st)
      /\ future (history (perform a st)) = future (history st)).
Proof.
  intros (_ & Hc & _). split.
  - intros Hm. unfold through_commit.
    destruct a; try discriminate; cbn [perform];
      apply setPassportsWithHistory_fresh;
      apply (same_ref_above _ _ (next_ref st) Hc); cbn; try lia.
    unfold updatePassport_next. case_target; cbn; lia.
  - intros Hf. destruct a; try discriminate; now split.
Qed.

Lemma mutation_paths_witness :
  through_commit (A_deletePassport "f1") one_placeholder.
Proof.
  apply (proj1 (mutation_paths (A_deletePassport "f1") one_placeholder
                  (reachable_heap_ok _
                     (reachable_perform
                        (A_addPlaceholders
                           [placeholder "f1" (mkFile "scan1.jpg")])
                        initial reachable_initial))));
    reflexivity.
Defined.

(** C2 as written fails: the error update of a file changes the present
    manifest, and neither pushes the prior present onto [past] nor goes
    through [setPassportsWithHistory]. *)
Lemma file_update_bypasses_commit :
  let a := A_fileFailed "f1" (Some "Unable to read passport."%string) in
  is_mutation a = true
  /\ snap_items (present (history (perform a one_placeholder)))
     <> snap_items (present (history one_placeholder))
  /\ past (history (perform a one_placeholder)) = past (history one_placeholder)
  /\ ~ through_commit a one_placeholder.
Proof.
  cbv zeta. split; [reflexivity|]. split; [|split].
  - vm_compute. discriminate.
  - reflexivity.
  - unfold through_commit. vm_compute. intros [H _]. discriminate.
Qed.

(** ** Batch ingestion *)

Lemma map_unchanged {A} (f : A -> A) l :
  Forall (fun x => f x = x) l -> map f l = l.
Proof.
  induction 1 as [|x l Hx _ IH]; [reflexivity|].
  cbn [map]. now rewrite Hx, IH.
Qed.

(** C5. A batch of three files whose second extraction fails runs to its
    end. With three distinct new ids that no record of the manifest has,
    the resulting snapshot is the three new records in the order of the
    files, followed by the records that were there: the first and the
    third completed, the second in error with the message of the failure;
    and [processedCount] is 3. *)
Theorem batch_survives_failure (env : BatchEnv) (f1 f2 f3 : File)
    (d1 d3 : Details) (m2 : option string) (st : AppState) :
  heap_ok st ->
  random_id env 0 <> random_id env 1 ->
  random_id env 0 <> random_id env 2 ->
  random_id env 1 <> random_id env 2 ->
  Forall (fun p => id p <> random_id env 0 /\ id p <> random_id env 1
                   /\ id p <> random_id env 2)
         (snap_items (present (history st))) ->
  extractPassportDetails env 0 f1 = Resolved d1 ->
  extractPassportDetails env 1 f2 = Rejected m2 ->
  extractPassportDetails env 2 f3 = Resolved d3 ->
  let st' := processFiles env [f1; f2; f3] st in
  exists r1 r2 r3,
    snap_items (present (history st'))
    = r1 :: r2 :: r3 :: snap_items (present (history st))
    /\ (id r1 = random_id env 0 /\ fileName r1 = name f1
        /\ status r1 = Completed)
    /\ (id r2 = random_id env 1 /\ fileName r2 = name f2
        /\ status r2 = Failed /\ errorMessage r2 = m2)
    /\ (id r3 = random_id env 2 /\ fileName r3 = name f3
        /\ status r3 = Completed)
    /\ processedCount st' = 3.
Proof.
  intros (_ & Hc & _) H01 H02 H12 Hold E1 E2 E3 st'. subst st'.
  unfold processFiles. cbn [List.length Nat.eqb placeholders_from combine].
  cbn [processLoop id placeholder]. rewrite E1, E2, E3.
  set (i1 := random_id env 0) in *.
  set (i2 := random_id env 1) in *.
  set (i3 := random_id env 2) in *.
  unfold fileCompleted, fileFailed, addPlaceholders.
  cbn [setStatus setProcessedCount setTotalCount setHistory bump history
       next_ref processedCount present snap_items past future].
  unfold setPassportsWithHistory, nextPresent, same_ref. cbn [snap_ref present].
  destruct (Nat.eqb_spec (next_ref st) (snap_ref (present (history st))));
    [lia|].
  cbn [present snap_items map app id placeholder].
  assert (Hm : forall (g : PassportData -> PassportData) pid,
             pid = i1 \/ pid = i2 \/ pid = i3 ->
             map (fun p => if String.eqb (id p) pid then g p else p)
                 (snap_items (present (history st)))
             = snap_items (present (history st))).
  { intros g pid Hpid. apply map_unchanged.
    eapply Forall_impl; [|exact Hold]. cbn. intros p (N1 & N2 & N3).
    destruct (String.eqb_spec (id p) pid) as [E|_]; [|reflexivity].
    exfalso. destruct Hpid as [->|[->| ->]]; auto. }
  assert (E12 : String.eqb i1 i2 = false) by now apply String.eqb_neq.
  assert (E13 : String.eqb i1 i3 = false) by now apply String.eqb_neq.
  assert (E23 : String.eqb i2 i3 = false) by now apply String.eqb_neq.
  assert (E21 : String.eqb i2 i1 = false)
    by (apply String.eqb_neq; congruence).
  assert (E31 : String.eqb i3 i1 = false)
    by (apply String.eqb_neq; congruence).
  assert (E32 : String.eqb i3 i2 = false)
    by (apply String.eqb_neq; congruence).
  rewrite (Hm _ i1) by auto.
  rewrite (Hm _ i2) by auto.
  rewrite (Hm _ i3) by auto.
  rewrite !String.eqb_refl, ?E21, ?E31.
  cbn [id completed_record failed_record placeholder].
  rewrite !String.eqb_refl, ?E12, ?E13, ?E32.
  cbn [id completed_record failed_record placeholder].
  rewrite !String.eqb_refl, ?E12, ?E13, ?E23.
  do 3 eexists. split; [reflexivity|].
  cbn [id fileName status errorMessage completed_record failed_record
       placeholder].
  repeat split; reflexivity.
Qed.

Lemma batch_survives_failure_witness :
  let st' := processFiles second_fails
               [mkFile "a.jpg"; mkFile "b.jpg"; mkFile "c.jpg"] initial in
  map status (snap_items (present (history st')))
  = [Completed; Failed; Completed]
  /\ processedCount st' = 3.
Proof.
  intros st'.
  destruct (batch_survives_failure second_fails
              (mkFile "a.jpg") (mkFile "b.jpg") (mkFile "c.jpg")
              (details_of "U9628867" "FAISAL" "PULIKKUTH" "01/01/2023")
              (details_of "U9628867" "FAISAL" "PULIKKUTH" "01/01/2023")
              (Some "Unable to read passport."%string) initial)
    as (r1 & r2 & r3 & Hitems & (_ & _ & H1) & (_ & _ & H2 & _)
        & (_ & _ & H3) & Hcount);
    try reflexivity; try discriminate.
  - repeat split; cbn; auto.
  - constructor.
  - fold st' in Hitems, Hcount. rewrite Hitems. cbn [map initial history present snap_items].
    now rewrite H1, H2, H3.
Defined.

(** The run of the witness in full: the third record is flagged as a
    duplicate of the first, the failed one keeps its placeholder fields. *)
Example batch_run :
  let st' := processFiles second_fails
               [mkFile "a.jpg"; mkFile "b.jpg"; mkFile "c.jpg"] initial in
  map (fun p => (id p, status p, errorMessage p, isDuplicate p))
      (snap_items (present (history st')))
  = [("k0", Completed, None, Some false);
     ("k1", Failed, Some "Unable to read passport.", None);
     ("k2", Completed, None, Some true)]%string
  /\ List.length (past (history st')) = 1
  /\ app_status st' = IDLE.
Proof. vm_compute. repeat split; reflexivity. Qed.

(** ** Sort and filter engine *)

Lemma lt_NaN_l b : JS.lt None b = false.
Proof. reflexivity. Qed.

Lemma lt_NaN_r a : JS.lt a None = false.
Proof. now destruct a. Qed.

(** A record whose date has three components that are not all numbers
    passes any active filter: its date is invalid and both comparisons
    fail. *)
Lemma in_range_NaN zone filters p :
  JS.truthy (get_date (field filters) p) = true ->
  let parts := JS.split "/" (JS.or_else (get_date (field filters) p) "") in
  List.length parts = 3 ->
  JS.parseInt (JS.at_index parts 0) = None
  \/ JS.parseInt (JS.at_index parts 1) = None
  \/ JS.parseInt (JS.at_index parts 2) = None ->
  in_range zone filters p = true.
Proof.
  intros Ht parts Hlen Hnan. unfold in_range. rewrite Ht. cbn [negb].
  fold parts. rewrite Hlen. cbn [Nat.eqb negb].
  assert (Hd : JSDate.of_ymd zone (JS.parseInt (JS.at_index parts 2))
                 (JS.sub (JS.parseInt (JS.at_index parts 1)) (Some 1%Z))
                 (JS.parseInt (JS.at_index parts 0)) = None).
  { unfold JSDate.of_ymd, JS.sub.
    destruct Hnan as [-> | [-> | ->]];
      repeat match goal with |- context [match ?x with _ => _ end] =>
               destruct x end; reflexivity. }
  rewrite Hd. unfold JS.gt. rewrite lt_NaN_l, lt_NaN_r, andb_false_r.
  now destruct (JS.truthy_string (endDate filters)).
Qed.

(** C8 at its failing input: with the filter on expiry dates of 2025
    active, a record whose expiry date is "a/b/c" is retained, in every
    time zone; the claim has it excluded as unparseable. *)
Theorem filter_retains_unparseable_date (zone : Z) :
  filteredAndSortedPassports zone [expiring "a/b/c"] expiry_2025 by_lastName
  = [expiring "a/b/c"].
Proof.
  unfold filteredAndSortedPassports. cbn [startDate endDate expiry_2025
    JS.truthy_string orb filter].
  rewrite in_range_NaN; [reflexivity|reflexivity|reflexivity|].
  left. reflexivity.
Qed.

(** The boundary dates: both are kept when the local zone is UTC; east of
    Greenwich the start date is excluded, west of it the end date, because
    the bounds are read as UTC midnights and the record as a local one. *)
Example filter_boundaries_utc :
  filteredAndSortedPassports 0 [expiring "01/01/2025"; expiring "31/12/2025"]
    expiry_2025 by_lastName
  = [expiring "01/01/2025"; expiring "31/12/2025"].
Proof. vm_compute. reflexivity. Qed.

Example filter_boundaries_east :
  filteredAndSortedPassports 330 [expiring "01/01/2025"; expiring "31/12/2025"]
    expiry_2025 by_lastName
  = [expiring "31/12/2025"].
Proof. vm_compute. reflexivity. Qed.

Example filter_boundaries_west :
  filteredAndSortedPassports (-300)
    [expiring "01/01/2025"; expiring "31/12/2025"] expiry_2025 by_lastName
  = [expiring "01/01/2025"].
Proof. vm_compute. reflexivity. Qed.

(** Absent, empty and two-component dates are excluded. *)
Example filter_excludes_absent :
  filteredAndSortedPassports 0
    [sample "a" "X1" "ANN" "LEE"; expiring ""; expiring "2025-06-01";
     expiring "06/2025"; expiring "15/06/2025"]
    expiry_2025 by_lastName
  = [expiring "15/06/2025"].
Proof. vm_compute. reflexivity. Qed.

(** The example of the specification: sorting by last name, ascending and
    then descending. *)
Example sort_by_lastName :
  let l := [sample "1" "P1" "A" "Zed"; sample "2" "P2" "B" "Amy";
            sample "3" "P3" "C" "Mid"] in
  let none := {| field := DF_expiryDate; startDate := ""; endDate := "" |} in
  map lastName (filteredAndSortedPassports 0 l none by_lastName)
  = [Some "Amy"; Some "Mid"; Some "Zed"]%string
  /\ map lastName
       (filteredAndSortedPassports 0 l none (handleSort F_lastName by_lastName))
     = [Some "Zed"; Some "Mid"; Some "Amy"]%string.
Proof. vm_compute. split; reflexivity. Qed.

(* ===================================================================== *)
(** * Further properties                                                  *)
(* ===================================================================== *)

(** ** Undo and redo *)

Lemma setPassportsWithHistory_shape np h :
  same_ref (nextPresent np h) (present h) = false ->
  setPassportsWithHistory np true h
  = {| past := JS.slice_last 49 (past h) ++ [present h];
       present := nextPresent np h;
       future := [] |}.
Proof.
  intros Hne. unfold setPassportsWithHistory. cbv zeta.
  now rewrite Hne, slice_last_snoc.
Qed.

(** The operations that call [setPassportsWithHistory] do so with an array
    that was just allocated. *)
Lemma commit_action_shape a st :
  heap_ok st -> uses_commit a = true ->
  exists np,
    history (perform a st) = setPassportsWithHistory np true (history st)
    /\ same_ref (nextPresent np (history st)) (present (history st)) = false.
Proof.
  intros (_ & Hc & _) Hu.
  destruct a; try discriminate; cbn [perform];
    eexists; (split; [reflexivity|]);
    apply (same_ref_above _ _ (next_ref st) Hc); cbn; try lia.
  unfold updatePassport_next. case_target; cbn; lia.
Qed.

(** X1. Undo and redo move the present along the timeline and nothing
    else: the sequence past, present, future is the same before and
    after, so no snapshot is lost, duplicated or reordered. *)
Theorem undo_redo_keep_timeline (h : HistoryState) :
  timeline (undo h) = timeline h /\ timeline (redo h) = timeline h.
Proof.
  destruct h as [pa pr fu]. unfold timeline. split.
  - destruct (rev_case pa) as [->|(l & x & ->)]; [reflexivity|].
    rewrite undo_snoc. cbn [past present future].
    now rewrite <- app_assoc.
  - destruct fu as [|n nf]; [reflexivity|].
    unfold redo. cbn [past present future]. now rewrite <- app_assoc.
Qed.

(** X2. Redo undoes an undo and undo undoes a redo: when there is
    something to undo, [redo] after [undo] gives back the very history
    state, and when there is something to redo, [undo] after [redo]
    does. *)
Theorem undo_redo_inverse (h : HistoryState) :
  (past h <> [] -> redo (undo h) = h)
  /\ (future h <> [] -> undo (redo h) = h).
Proof.
  destruct h as [pa pr fu]. cbn [past future]. split; intros Hne.
  - destruct (rev_case pa) as [->|(l & x & ->)]; [congruence|].
    rewrite undo_snoc. reflexivity.
  - destruct fu as [|n nf]; [congruence|].
    unfold redo. cbn [past present future]. apply undo_snoc.
Qed.

Lemma undo_redo_inverse_witness :
  let h := {| past := [mkSnapshot 0 []];
              present := mkSnapshot 1 two_passengers;
              future := [mkSnapshot 2 []] |} in
  redo (undo h) = h /\ undo (redo h) = h.
Proof.
  intros h. split.
  - apply (proj1 (undo_redo_inverse h)). discriminate.
  - apply (proj2 (undo_redo_inverse h)). discriminate.
Defined.

(** X3. Every edit, deletion, clearing and insertion of placeholders can
    be undone and redone: after the operation, [undo] has the manifest of
    before as its present and a following [redo] has the manifest of
    after. *)
Theorem undo_reverts_operation (a : Action) (st : AppState) :
  heap_ok st -> uses_commit a = true ->
  present (undo (history (perform a st))) = present (history st)
  /\ present (redo (undo (history (perform a st))))
     = present (history (perform a st)).
Proof.
  intros Hok Hu.
  destruct (commit_action_shape a st Hok Hu) as (np & -> & Hne).
  rewrite (setPassportsWithHistory_shape np _ Hne), undo_snoc.
  split; reflexivity.
Qed.

Lemma undo_reverts_operation_witness :
  let st := manifest_of two_passengers in
  snap_items (present (undo (history (perform (A_deletePassport "a") st))))
  = two_passengers.
Proof.
  intros st.
  rewrite (proj1 (undo_reverts_operation (A_deletePassport "a") st
                    (manifest_of_ok two_passengers) eq_refl)).
  reflexivity.
Defined.

(** ** Batches of any size *)

Lemma processLoop_counts env work : forall i st,
  totalCount (processLoop env i work st) = totalCount st
  /\ app_status (processLoop env i work st) = app_status st
  /\ processedCount (processLoop env i work st)
     = match work with
       | [] => processedCount st
       | _ :: _ => i + List.length work
       end.
Proof.
  induction work as [|[file ph] rest IH]; intros i st; [now repeat split|].
  cbn [processLoop].
  set (st1 := setProcessedCount (i + 1) _).
  destruct (IH (S i) st1) as (Ht & Hs & Hp).
  rewrite Ht, Hs, Hp.
  assert (Hst1 : totalCount st1 = totalCount st /\ app_status st1 = app_status st
                 /\ processedCount st1 = i + 1).
  { subst st1. destruct (extractPassportDetails env i file); now repeat split. }
  destruct Hst1 as (-> & -> & ->).
  repeat split. destruct rest; cbn [List.length]; lia.
Qed.

(** X4. A batch is one step of the history, whatever its size and
    whatever the service answers: after [processFiles] on a non-empty list
    of files the prior present was pushed onto [past] once and [future] is
    empty, so that one [undo] has the manifest of before the batch as its
    present; the two counters equal the number of files and the status is
    back to idle. *)
Theorem batch_is_one_history_entry (env : BatchEnv) (files : list File)
    (st : AppState) :
  heap_ok st -> files <> [] ->
  let st' := processFiles env files st in
  past (history st')
  = JS.slice_last 50 (past (history st) ++ [present (history st)])
  /\ future (history st') = []
  /\ present (undo (history st')) = present (history st)
  /\ processedCount st' = List.length files
  /\ totalCount st' = List.length files
  /\ app_status st' = IDLE.
Proof.
  intros Hok Hne st'. subst st'. unfold processFiles.
  destruct files as [|f files]; [congruence|].
  cbn [List.length Nat.eqb].
  set (n := S (List.length files)).
  set (phs := placeholders_from env 0 (f :: files)).
  set (st1 := setStatus PROCESSING (setProcessedCount 0 (setTotalCount n st))).
  set (st2 := addPlaceholders phs st1).
  set (work := combine (f :: files) phs).
  cbn [setStatus history processedCount totalCount app_status].
  destruct (processLoop_past_future env work 0 st2) as [Hp Hf].
  destruct (processLoop_counts env work 0 st2) as (Ht & _ & Hc).
  assert (Hok1 : heap_ok st1) by exact Hok.
  destruct (commit_action_shape (A_addPlaceholders phs) st1 Hok1 eq_refl)
    as (np & Hh & Hfresh).
  cbn [perform] in Hh. fold st2 in Hh.
  assert (Hpast : past (history st2)
                  = JS.slice_last 49 (past (history st)) ++ [present (history st)]).
  { rewrite Hh, (setPassportsWithHistory_shape np _ Hfresh). reflexivity. }
  assert (Hfut : future (history st2) = []).
  { rewrite Hh, (setPassportsWithHistory_shape np _ Hfresh). reflexivity. }
  assert (Hlen : List.length work = n).
  { subst work phs n. clear. cbn [placeholders_from combine List.length].
    f_equal. generalize 1 as i. induction files as [|g gs IH]; intros i;
      [reflexivity|]. cbn [placeholders_from combine List.length].
    now rewrite IH. }
  repeat split.
  - rewrite Hp, Hpast, <- slice_last_snoc. reflexivity.
  - now rewrite Hf.
  - destruct (history (processLoop env 0 work st2)) as [pa pr fu].
    cbn [past future] in Hp, Hf. subst pa. rewrite Hpast, undo_snoc.
    reflexivity.
  - rewrite Hc. clearbody work. destruct work; [subst n; discriminate|].
    exact Hlen.
  - rewrite Ht. reflexivity.
Qed.

Lemma map_update_one (pid : string) (g : PassportData -> PassportData)
    (done : list PassportData) (x : PassportData) (rest : list PassportData) :
  id x = pid ->
  (forall p, In p (done ++ rest) -> id p <> pid) ->
  map (fun p => if String.eqb (id p) pid then g p else p) (done ++ x :: rest)
  = done ++ g x :: rest.
Proof.
  intros Hx Hother. rewrite map_app. cbn [map].
  rewrite Hx, String.eqb_refl. f_equal; [|f_equal]; apply map_unchanged;
    apply Forall_forall; intros p Hp;
    (destruct (String.eqb_spec (id p) pid) as [E|_]; [|reflexivity]);
    exfalso; apply (Hother p); auto; apply in_or_app; auto.
Qed.

Lemma placeholders_from_ids env fs : forall i,
  map id (placeholders_from env i fs)
  = map (random_id env) (seq i (List.length fs)).
Proof.
  induction fs as [|f fs IH]; intros i; [reflexivity|].
  cbn [placeholders_from map List.length seq id placeholder]. now rewrite IH.
Qed.

(** The loop of [processFiles] settles its placeholders one after the
    other and touches nothing around them. *)
Lemma processLoop_settles env fs : forall i done old st,
  snap_items (present (history st))
  = done ++ placeholders_from env i fs ++ old ->
  NoDup (map id (placeholders_from env i fs)) ->
  (forall p, In p (done ++ old) ->
             ~ In (id p) (map id (placeholders_from env i fs))) ->
  exists recs,
    snap_items (present (history
      (processLoop env i (combine fs (placeholders_from env i fs)) st)))
    = done ++ recs ++ old
    /\ settled env i fs recs.
Proof.
  induction fs as [|f fs IH]; intros i done old st Hitems Hnd Hdis.
  - exists []. split; [exact Hitems|exact I].
  - cbn [placeholders_from] in *.
    set (ph := placeholder (random_id env i) f) in *.
    set (phs := placeholders_from env (S i) fs) in *.
    cbn [combine processLoop].
    cbn [map] in Hnd, Hdis. inversion Hnd as [|? ? Hnotin Hnd']; subst.
    assert (Hother : forall p, In p (done ++ phs ++ old) -> id p <> id ph).
    { intros p Hp E. apply in_app_or in Hp. destruct Hp as [Hp|Hp].
      - apply (Hdis p); [apply in_or_app; auto|left; now symmetry].
      - apply in_app_or in Hp. destruct Hp as [Hp|Hp].
        + apply Hnotin. change (In (id ph) (map id phs)).
          rewrite <- E. now apply in_map.
        + apply (Hdis p); [apply in_or_app; auto|left; now symmetry]. }
    set (st1 := setProcessedCount (i + 1) _).
    assert (Hst1 : exists r,
               snap_items (present (history st1)) = done ++ r :: phs ++ old
               /\ id r = random_id env i /\ fileName r = name f
               /\ match extractPassportDetails env i f with
                  | Resolved d =>
                      status r = Completed
                      /\ firstName r = x_firstName d
                      /\ lastName r = x_lastName d
                      /\ passportNumber r = x_passportNumber d
                      /\ errorMessage r = None
                  | Rejected m => status r = Failed /\ errorMessage r = m
                  end).
    { subst st1. destruct (extractPassportDetails env i f) as [d|m].
      - eexists. split.
        + unfold fileCompleted.
          cbn [setProcessedCount setHistory bump history present snap_items].
          rewrite Hitems. cbn [app].
          apply (map_update_one (id ph)
                   (fun p => completed_record p _ _) done ph (phs ++ old)
                   eq_refl Hother).
        + now repeat split.
      - eexists. split.
        + unfold fileFailed.
          cbn [setProcessedCount setHistory bump history present snap_items].
          rewrite Hitems. cbn [app].
          apply (map_update_one (id ph)
                   (fun p => failed_record p m) done ph (phs ++ old)
                   eq_refl Hother).
        + now repeat split. }
    destruct Hst1 as (r & Hitems1 & Hid & Hname & Hout).
    destruct (IH (S i) (done ++ [r]) old st1) as (recs & Hres & Hset).
    + rewrite Hitems1, <- app_assoc. reflexivity.
    + exact Hnd'.
    + intros p Hp Hin. rewrite <- app_assoc in Hp. cbn [app] in Hp.
      apply in_app_or in Hp. destruct Hp as [Hp|[<-|Hp]].
      * apply (Hdis p); [apply in_or_app; auto|right; exact Hin].
      * apply Hnotin. now rewrite Hid in Hin.
      * apply (Hdis p); [apply in_or_app; auto|right; exact Hin].
    + exists (r :: recs). split.
      * fold phs in Hres. rewrite Hres, <- app_assoc. reflexivity.
      * cbn [settled]. repeat split; auto.
Qed.

Lemma settled_statuses env fs : forall i recs,
  settled env i fs recs ->
  List.length recs = List.length fs
  /\ Forall (fun r => status r = Completed \/ status r = Failed) recs.
Proof.
  induction fs as [|f fs IH]; intros i [|r recs] H; cbn [settled] in H;
    try contradiction; [now split|].
  destruct H as (_ & _ & Hout & Hrest).
  destruct (IH (S i) recs Hrest) as [Hlen Hall].
  split; [cbn [List.length]; now rewrite Hlen|].
  constructor; [|exact Hall].
  destruct (extractPassportDetails env i f); [left|right]; tauto.
Qed.

(** X5. A batch of any size settles every file: when the ids drawn for
    the batch are pairwise distinct and new to the manifest, the snapshot
    after [processFiles] is one record per file, in the order of the
    files, followed by the records that were there, unchanged.  The record
    of a file has the id drawn for it and its file name; it is completed
    with the names and number the service returned when the service
    resolved, and in error with the message when it rejected.  None is
    left processing. *)
Theorem batch_settles_every_file (env : BatchEnv) (files : list File)
    (st : AppState) :
  heap_ok st ->
  NoDup (batch_ids env (List.length files)) ->
  (forall p, In p (snap_items (present (history st))) ->
             ~ In (id p) (batch_ids env (List.length files))) ->
  exists recs,
    snap_items (present (history (processFiles env files st)))
    = recs ++ snap_items (present (history st))
    /\ settled env 0 files recs
    /\ List.length recs = List.length files
    /\ Forall (fun r => status r = Completed \/ status r = Failed) recs.
Proof.
  intros Hok Hnd Hdis. unfold processFiles.
  destruct files as [|f files].
  - exists []. now repeat split.
  - cbn [List.length Nat.eqb].
    set (fs := f :: files) in *.
    set (st1 := setStatus PROCESSING _).
    set (phs := placeholders_from env 0 fs).
    cbn [setStatus history].
    assert (Hitems : snap_items (present (history (addPlaceholders phs st1)))
                     = [] ++ phs ++ snap_items (present (history st))).
    { destruct Hok as (_ & Hc & _). unfold addPlaceholders.
      cbn [bump setHistory history].
      unfold setPassportsWithHistory, nextPresent, same_ref.
      subst st1. cbn [setStatus setProcessedCount setTotalCount history next_ref
                      snap_ref present].
      destruct (Nat.eqb_spec (next_ref st) (snap_ref (present (history st))));
        [lia|reflexivity]. }
    unfold batch_ids in Hnd, Hdis.
    destruct (processLoop_settles env fs 0 [] (snap_items (present (history st)))
                (addPlaceholders phs st1) Hitems) as (recs & Hres & Hset).
    + now rewrite placeholders_from_ids.
    + intros p Hp. rewrite placeholders_from_ids. now apply Hdis.
    + exists recs. split; [exact Hres|]. split; [exact Hset|].
      exact (settled_statuses env fs 0 recs Hset).
Qed.

Lemma batch_settles_every_file_witness :
  exists recs,
    snap_items (present (history
      (processFiles second_fails
         [mkFile "a.jpg"; mkFile "b.jpg"; mkFile "c.jpg"; mkFile "d.jpg"]
         initial)))
    = recs ++ []
    /\ List.length recs = 4.
Proof.
  destruct (batch_settles_every_file second_fails
              [mkFile "a.jpg"; mkFile "b.jpg"; mkFile "c.jpg"; mkFile "d.jpg"]
              initial) as (recs & H & _ & Hlen & _).
  - repeat split; cbn; auto.
  - cbn. repeat constructor; cbn; intuition discriminate.
  - intros p [].
  - exists recs. split; [exact H|exact Hlen].
Defined.

Lemma batch_is_one_history_entry_witness :
  let st' := processFiles second_fails
               [mkFile "a.jpg"; mkFile "b.jpg"] initial in
  present (undo (history st')) = present (history initial)
  /\ processedCount st' = 2.
Proof.
  intros st'.
  destruct (batch_is_one_history_entry second_fails
              [mkFile "a.jpg"; mkFile "b.jpg"] initial)
    as (_ & _ & Hu & Hc & _).
  - repeat split; cbn; auto.
  - discriminate.
  - split; [exact Hu|exact Hc].
Defined.

(** ** Duplicate detector, continued *)

Lemma truthy_string_iff s : JS.truthy_string s = true <-> s <> ""%string.
Proof. destruct s; cbn; split; congruence. Qed.

Lemma same_text_iff a b : same_text a b = true <-> same_after_trim a b.
Proof.
  unfold same_text, same_after_trim. split.
  - destruct a as [x|], b as [y|]; try discriminate.
    rewrite !andb_true_iff, !truthy_string_iff, String.eqb_eq.
    intros [[Hx Hy] He]. exists x, y. auto.
  - intros (x & y & -> & -> & Hx & Hy & He).
    rewrite !andb_true_iff, !truthy_string_iff, String.eqb_eq. auto.
Qed.

(** X6. What [checkIsDuplicate] decides: a candidate is a duplicate
    exactly when some record of the list with another id and status
    completed has the same passport number, or the same first and last
    names, both sides non-empty and compared trimmed and upper-cased.
    Records that are pending, processing or in error are never matched,
    nor is the record with the excluded id. *)
Theorem checkIsDuplicate_iff (details : PassportData) (currentId : string)
    (list : list PassportData) :
  checkIsDuplicate details currentId list = true
  <-> exists p, In p list /\ id p <> currentId /\ status p = Completed
        /\ (same_after_trim (passportNumber details) (passportNumber p)
            \/ (same_after_trim (firstName details) (firstName p)
                /\ same_after_trim (lastName details) (lastName p))).
Proof.
  split.
  - unfold checkIsDuplicate. destruct (_ && _); [discriminate|].
    intros H. apply existsb_exists in H. destruct H as (p & Hin & Hfl).
    exists p. split; [exact Hin|]. unfold flags in Hfl.
    destruct (String.eqb_spec (id p) currentId) as [|Hne]; [discriminate|].
    destruct (Status_eqb (status p) Completed) eqn:Hs; [|discriminate].
    apply Status_eqb_eq in Hs. cbn [negb] in Hfl.
    split; [exact Hne|]. split; [exact Hs|].
    apply orb_true_iff in Hfl. destruct Hfl as [H|H].
    + left. now apply same_text_iff.
    + right. apply andb_true_iff in H. now rewrite <- !same_text_iff.
  - intros (p & Hin & Hne & Hs & Hm).
    apply (flags_checkIsDuplicate details currentId list p Hin).
    unfold flags. apply String.eqb_neq in Hne. rewrite Hne, Hs.
    cbn [Status_eqb negb]. apply orb_true_iff.
    destruct Hm as [H|[H1 H2]].
    + left. now apply same_text_iff.
    + right. apply andb_true_iff. now rewrite !same_text_iff.
Qed.

(** ** Derived attributes, continued *)

(** X7. The title that [deriveAttributes] gives goes with the type: an
    INFANT is MSTR or MISS, a CHILD is MR or MS and never MRS, and MRS is
    given only to an ADULT; the empty title comes with ADULT. *)
Theorem title_goes_with_type (clk : Clock) (dob gender : string) :
  let r := deriveAttributes clk dob gender in
  (d_passengerType r = INFANT ->
   d_title r = "MSTR"%string \/ d_title r = "MISS"%string)
  /\ (d_passengerType r = CHILD ->
      d_title r = "MR"%string \/ d_title r = "MS"%string)
  /\ (d_title r = "MRS"%string -> d_passengerType r = ADULT)
  /\ (d_title r = ""%string -> d_passengerType r = ADULT).
Proof.
  cbv zeta. unfold deriveAttributes.
  destruct (negb (JS.truthy_string dob)); [cbn; repeat split; congruence|].
  destruct (negb _); [cbn; repeat split; congruence|].
  destruct (age clk (JS.split "/" dob)) as [a|]; unfold JS.gt, JS.lt.
  - destruct (Z.ltb_spec a 2), (Z.ltb_spec a 12), (Z.ltb_spec 30 a);
      try lia; destruct (String.eqb _ "MALE"); cbn;
      repeat split; intros; try discriminate; auto.
  - destruct (String.eqb _ "MALE"); cbn;
      repeat split; intros; try discriminate; auto.
Qed.

(** X8. Of the gender, [deriveAttributes] reads only whether it is MALE
    in some letter case: two genders that agree on that give the same
    result, so that an empty or unknown gender is titled like FEMALE. *)
Theorem gender_only_male_matters (clk : Clock) (dob g1 g2 : string) :
  (JS.toUpperCase g1 = "MALE"%string <-> JS.toUpperCase g2 = "MALE"%string) ->
  deriveAttributes clk dob g1 = deriveAttributes clk dob g2.
Proof.
  intros H. unfold deriveAttributes.
  assert (E : String.eqb (JS.toUpperCase g1) "MALE"
              = String.eqb (JS.toUpperCase g2) "MALE").
  { destruct (String.eqb_spec (JS.toUpperCase g1) "MALE"),
             (String.eqb_spec (JS.toUpperCase g2) "MALE"); tauto. }
  now rewrite E.
Qed.

Lemma gender_only_male_matters_witness :
  deriveAttributes clock_2025 "01/01/1990" ""
  = deriveAttributes clock_2025 "01/01/1990" "female"
  /\ deriveAttributes clock_2025 "01/01/1990" "Male"
     = deriveAttributes clock_2025 "01/01/1990" "MALE".
Proof.
  split; apply gender_only_male_matters; split; intros H;
    try reflexivity; discriminate H.
Defined.

(** ** Field edits, continued *)

Lemma edit_record_fileName clk id0 field value p :
  fileName (edit_record clk id0 field value p) = fileName p.
Proof.
  unfold edit_record. destruct (negb _); [reflexivity|]. now destruct field.
Qed.

Lemma edit_record_errorMessage clk id0 field value p :
  errorMessage (edit_record clk id0 field value p) = errorMessage p.
Proof.
  unfold edit_record. destruct (negb _); [reflexivity|]. now destruct field.
Qed.

(** A projection that neither the edit of a record nor the marking of a
    duplicate changes is the same, record by record, after
    [updatePassport]. *)
Lemma edited_preserves {B} (proj : PassportData -> B) clk id0 field value items :
  (forall p, proj (edit_record clk id0 field value p) = proj p) ->
  (forall b p, proj (set_isDuplicate b p) = proj p) ->
  map proj (edited clk id0 field value items) = map proj items.
Proof.
  intros He Hm. rewrite edited_unfold. cbv zeta.
  assert (Hul : map proj (map (edit_record clk id0 field value) items)
                = map proj items).
  { rewrite map_map. apply map_ext. exact He. }
  case_target; try exact Hul.
  etransitivity; [|exact Hul].
  rewrite (map_map (mark _ _)). apply map_ext. intros p.
  unfold mark. destruct (String.eqb _ _); [apply Hm|reflexivity].
Qed.

(** X9. An edit never touches what identifies a record or tells where it
    stands: after [updatePassport] the snapshot has the same ids, in the
    same order, with the same statuses, file names and error messages. *)
Theorem updatePassport_keeps_identity (clk : Clock) (id0 : string)
    (field : Field) (value : string) (st : AppState) :
  heap_ok st ->
  let before := snap_items (present (history st)) in
  let after :=
    snap_items (present (history (updatePassport clk id0 field value st))) in
  map id after = map id before
  /\ map status after = map status before
  /\ map fileName after = map fileName before
  /\ map errorMessage after = map errorMessage before.
Proof.
  intros Hok before after. subst after.
  rewrite (updatePassport_items clk id0 field value st Hok). fold before.
  repeat split; apply edited_preserves; intros;
    auto using edit_record_id, edit_record_status, edit_record_fileName,
               edit_record_errorMessage.
Qed.

Lemma updatePassport_keeps_identity_witness :
  map id (snap_items (present (history
            (updatePassport clock_2025 "a" F_lastName "KIM"
               (manifest_of two_passengers)))))
  = ["a"; "b"]%string.
Proof.
  rewrite (proj1 (updatePassport_keeps_identity clock_2025 "a" F_lastName "KIM"
                    (manifest_of two_passengers)
                    (manifest_of_ok two_passengers))).
  reflexivity.
Defined.

(** X10. An edit of the date of birth or of the gender overwrites the
    title and the passenger type of the edited record with the attributes
    derived from its date of birth and gender as they are after the edit,
    whatever title was there.  An edit of any of the six other plain
    fields leaves every title and passenger type as it was. *)
Theorem edit_rederives_title (clk : Clock) (id0 : string) (field : Field)
    (value : string) (st : AppState) :
  heap_ok st ->
  let before := snap_items (present (history st)) in
  let after :=
    snap_items (present (history (updatePassport clk id0 field value st))) in
  (field = F_dateOfBirth \/ field = F_gender ->
   forall p', In p' after -> id p' = id0 ->
     let derived :=
       deriveAttributes clk (JS.or_else (dateOfBirth p') "")
                            (JS.or_else (gender p') "") in
     get_field field p' = Some value
     /\ title p' = Some (d_title derived)
     /\ passengerType p'
        = Some (PassengerType_str (d_passengerType derived)))
  /\ (field <> F_dateOfBirth -> field <> F_gender ->
      field <> F_title -> field <> F_passengerType ->
      map title after = map title before
      /\ map passengerType after = map passengerType before).
Proof.
  intros Hok before after. subst after.
  rewrite (updatePassport_items clk id0 field value st Hok). fold before.
  split.
  - intros Hf p' Hin Hid. cbv zeta.
    apply edited_In in Hin. destruct Hin as (p & _ & Hidp & Hget).
    change (title p') with (get_field F_title p').
    change (passengerType p') with (get_field F_passengerType p').
    change (dateOfBirth p') with (get_field F_dateOfBirth p').
    change (gender p') with (get_field F_gender p').
    rewrite !Hget. unfold edit_record.
    rewrite <- Hidp, Hid, String.eqb_refl. cbn [negb].
    destruct Hf as [-> | ->]; repeat split; reflexivity.
  - intros N1 N2 N3 N4.
    split; apply edited_preserves; intros; try reflexivity;
      unfold edit_record; destruct (negb _); try reflexivity;
      destruct field; try reflexivity; congruence.
Qed.

Lemma edit_rederives_title_witness :
  let after :=
    snap_items (present (history
      (updatePassport clock_2025 "a" F_dateOfBirth "01/01/2023"
         (manifest_of two_passengers)))) in
  let p' := nth 0 after (sample "" "" "" "") in
  title p' = Some "MS"%string /\ passengerType p' = Some "CHILD"%string.
Proof.
  intros after p'.
  destruct (proj1 (edit_rederives_title clock_2025 "a" F_dateOfBirth
                     "01/01/2023" (manifest_of two_passengers)
                     (manifest_of_ok two_passengers))
              (or_introl eq_refl) p' (or_introl eq_refl) eq_refl)
    as (_ & Ht & Hp).
  split; [exact Ht|exact Hp].
Defined.

(** ** Operations on an id that no record has *)

Lemma map_unchanged_filter {A} (f : A -> bool) l :
  (forall x, In x l -> f x = true) -> filter f l = l.
Proof.
  induction l as [|x l IH]; intros H; [reflexivity|].
  cbn [filter]. rewrite (H x (or_introl eq_refl)), IH; auto.
  intros y Hy. apply H. now right.
Qed.

Lemma edited_unknown clk id0 field value items :
  (forall p, In p items -> id p <> id0) ->
  edited clk id0 field value items = items.
Proof.
  intros Hno. rewrite edited_unfold. cbv zeta.
  assert (Hul : map (edit_record clk id0 field value) items = items).
  { apply map_unchanged, Forall_forall. intros p Hp.
    apply edit_record_other. now apply Hno. }
  rewrite Hul.
  destruct (find _ items) as [t|] eqn:Hf; [|reflexivity].
  apply find_some in Hf. destruct Hf as [Hin He].
  apply String.eqb_eq in He. exfalso. now apply (Hno t).
Qed.

(** X11. An edit or a deletion aimed at an id that no record of the
    manifest has changes no record, and is a step of the history all the
    same: the present array is a new one, the prior one was pushed onto
    [past] and [future] was cleared. *)
Theorem unknown_id_still_commits (clk : Clock) (id0 : string) (field : Field)
    (value : string) (st : AppState) :
  heap_ok st ->
  (forall p, In p (snap_items (present (history st))) -> id p <> id0) ->
  (snap_items (present (history (updatePassport clk id0 field value st)))
   = snap_items (present (history st))
   /\ past (history (updatePassport clk id0 field value st))
      = JS.slice_last 50 (past (history st) ++ [present (history st)])
   /\ future (history (updatePassport clk id0 field value st)) = [])
  /\ (snap_items (present (history (deletePassport id0 st)))
      = snap_items (present (history st))
      /\ past (history (deletePassport id0 st))
         = JS.slice_last 50 (past (history st) ++ [present (history st)])
      /\ future (history (deletePassport id0 st)) = []).
Proof.
  intros Hok Hno. split.
  - split.
    + rewrite (updatePassport_items clk id0 field value st Hok).
      now apply edited_unknown.
    + destruct (commit_action_shape
                  (A_onChange ViaDetailEditor clk id0 field value) st Hok
                  eq_refl) as (np & Hh & Hne).
      change (perform (A_onChange ViaDetailEditor clk id0 field value) st)
        with (updatePassport clk id0 field value st) in Hh.
      rewrite Hh.
      apply (setPassportsWithHistory_fresh np _ Hne).
  - split.
    + rewrite (deletePassport_items id0 st Hok).
      apply map_unchanged_filter. intros p Hp.
      apply negb_true_iff, String.eqb_neq. now apply Hno.
    + destruct (commit_action_shape (A_deletePassport id0) st Hok eq_refl)
        as (np & Hh & Hne).
      cbn [perform] in Hh. rewrite Hh.
      apply (setPassportsWithHistory_fresh np _ Hne).
Qed.

(** ** The view: filter and sort *)

Lemma sort_insert_perm {A} (cmp : A -> A -> Z) x l :
  Permutation (JS.sort_insert cmp x l) (x :: l).
Proof.
  induction l as [|y l IH]; cbn [JS.sort_insert]; [reflexivity|].
  destruct (0 <? cmp x y)%Z; [|reflexivity].
  rewrite IH. apply perm_swap.
Qed.

Lemma sort_perm {A} (cmp : A -> A -> Z) l : Permutation (JS.sort cmp l) l.
Proof.
  induction l as [|x l IH]; [reflexivity|].
  unfold JS.sort in *. cbn [fold_right]. rewrite sort_insert_perm.
  now constructor.
Qed.





(** *** The order of strings *)








(** X12. The view shows records of the manifest and nothing else: it is
    a rearrangement of the manifest when no bound of the filter is set,
    and of the records that pass the filter otherwise; without a sort key
    it is those records in the order of the manifest. *)
Theorem view_rearranges_manifest (zone : Z) (passports : list PassportData)
    (filters : FilterState) (sortConfig : SortConfig) :
  let view := filteredAndSortedPassports zone passports filters sortConfig in
  Permutation view (shown zone passports filters)
  /\ (forall p, In p view -> In p passports)
  /\ (startDate filters = ""%string -> endDate filters = ""%string ->
      Permutation view passports)
  /\ (key sortConfig = None -> view = shown zone passports filters).
Proof.
  cbv zeta.
  assert (Hperm : Permutation
            (filteredAndSortedPassports zone passports filters sortConfig)
            (shown zone passports filters)).
  { unfold filteredAndSortedPassports, shown.
    destruct (key sortConfig); [apply sort_perm|reflexivity]. }
  split; [exact Hperm|]. split; [|split].
  - intros p Hp. apply (Permutation_in _ Hperm) in Hp. unfold shown in Hp.
    destruct (_ || _); [|exact Hp]. apply filter_In in Hp. tauto.
  - intros Hs He. rewrite Hperm. unfold shown. now rewrite Hs, He.
  - intros Hk. unfold filteredAndSortedPassports, shown. now rewrite Hk.
Qed.

Lemma view_rearranges_manifest_witness :
  Permutation
    (filteredAndSortedPassports 0 two_passengers
       {| field := DF_expiryDate; startDate := ""; endDate := "" |}
       by_lastName)
    two_passengers.
Proof.
  apply (proj1 (proj2 (proj2 (view_rearranges_manifest 0 two_passengers
           {| field := DF_expiryDate; startDate := ""; endDate := "" |}
           by_lastName)))); reflexivity.
Defined.



Section DateRange.

Local Open Scope Z_scope.

Lemma of_ymd_value zone year month date :
  100 <= year <= 200000 -> 1 <= month <= 12 ->
  1 <= date <= days_in_month year (month - 1) ->
  -1440 <= zone <= 1440 ->
  JSDate.of_ymd zone (Some year) (Some (month - 1)) (Some date)
  = Some (JSDate.days_from_civil year (month - 1) date * JSDate.msPerDay
          - zone * JSDate.msPerMinute).
Proof.
  intros Hy Hm Hd Hz.
  assert (Hd31 : 1 <= date <= 31).
  { unfold days_in_month in Hd.
    destruct (_ =? 1); [destruct (leap year)|destruct (_ || _)]; lia. }
  pose proof (days_from_civil_bound year (month - 1) date ltac:(lia) Hd31 Hy)
    as Hb.
  unfold JSDate.of_ymd, JSDate.MakeFullYear.
  replace ((0 <=? year) && (year <=? 99)) with false
    by (symmetry; apply andb_false_iff; right; apply Z.leb_gt; lia).
  rewrite MakeDay_valid by lia. unfold JSDate.TimeClip.
  replace (Z.abs _ <=? _) with true; [reflexivity|].
  symmetry. apply Z.leb_le. unfold JSDate.msPerDay, JSDate.msPerMinute. lia.
Qed.

(** The end of the local day of a UTC midnight: the same day east of
    Greenwich and at Greenwich, the day before west of it. *)
Lemma setHours_end_of_day zone E :
  -1440 < zone < 1440 -> -73000000 <= E <= 73000000 ->
  JSDate.setHours zone (Some (E * JSDate.msPerDay)) 23 59 59
  = Some ((if zone <? 0 then E - 1 else E) * JSDate.msPerDay + 86399000
          - zone * JSDate.msPerMinute).
Proof.
  intros Hz HE. unfold JSDate.setHours, JSDate.TimeClip,
    JSDate.msPerDay, JSDate.msPerMinute.
  assert (Hday : (E * 86400000 + zone * 60000) / 86400000
                 = if zone <? 0 then E - 1 else E).
  { destruct (Z.ltb_spec zone 0); Z.div_mod_to_equations; lia. }
  assert (Hms : (E * 86400000 + zone * 60000) mod 1000 = 0).
  { Z.div_mod_to_equations. lia. }
  rewrite Hday, Hms.
  replace (Z.abs _ <=? _) with true; [f_equal; lia|].
  symmetry. apply Z.leb_le. destruct (zone <? 0); lia.
Qed.

Lemma parse_truthy s v : JSDate.parse s = Some v -> JS.truthy_string s = true.
Proof. destruct s; [discriminate|reflexivity]. Qed.

(** X14. What the date filter keeps, for a record whose date is a day
    [D] of the calendar and bounds that are the days [S] and [E]: the
    record is kept when [S <= D <= E], except that east of Greenwich the
    day [S] itself is dropped and west of Greenwich the day [E] itself is
    dropped.  Both bounds are inclusive only when the local zone is
    UTC. *)
Theorem filter_keeps_days_in_range (zone : Z) (filters : FilterState)
    (p : PassportData) (d m y S E : Z) :
  let parts := JS.split "/" (JS.or_else (get_date (field filters) p) "") in
  let D := JSDate.days_from_civil y (m - 1) d in
  JS.truthy (get_date (field filters) p) = true ->
  List.length parts = 3%nat ->
  JS.parseInt (JS.at_index parts 0) = Some d ->
  JS.parseInt (JS.at_index parts 1) = Some m ->
  JS.parseInt (JS.at_index parts 2) = Some y ->
  100 <= y <= 200000 -> 1 <= m <= 12 -> 1 <= d <= days_in_month y (m - 1) ->
  -1440 < zone < 1440 ->
  JSDate.parse (startDate filters) = Some (S * JSDate.msPerDay) ->
  JSDate.parse (endDate filters) = Some (E * JSDate.msPerDay) ->
  -73000000 <= E <= 73000000 ->
  in_range zone filters p
  = (if 0 <? zone then S <? D else S <=? D)
    && (if zone <? 0 then D <? E else D <=? E).
Proof.
  intros parts D Ht Hlen Pd Pm Py Hy Hm Hd Hz Hs He HE.
  unfold in_range. rewrite Ht. cbn [negb]. fold parts.
  rewrite Hlen, Pd, Pm, Py. cbn [Nat.eqb negb JS.sub].
  rewrite (of_ymd_value zone y m d Hy Hm Hd) by lia. fold D.
  rewrite (parse_truthy _ _ Hs), (parse_truthy _ _ He), Hs, He.
  rewrite (setHours_end_of_day zone E Hz HE).
  unfold JS.gt, JS.lt, JSDate.msPerDay, JSDate.msPerMinute. cbn [andb].
  destruct (Z.ltb_spec 0 zone), (Z.ltb_spec zone 0); try lia;
    repeat match goal with
           | |- context [(?a <? ?b)] => destruct (Z.ltb_spec a b)
           | |- context [(?a <=? ?b)] => destruct (Z.leb_spec a b)
           end; cbn; try reflexivity; lia.
Qed.

End DateRange.

Lemma filter_keeps_days_in_range_witness :
  in_range 330 expiry_2025 (expiring "01/01/2025") = false
  /\ in_range 0 expiry_2025 (expiring "01/01/2025") = true.
Proof.
  split.
  - rewrite (filter_keeps_days_in_range 330 expiry_2025
               (expiring "01/01/2025") 1 1 2025 20089 20453)%Z;
      try reflexivity; try (vm_compute; split; discriminate); lia.
  - rewrite (filter_keeps_days_in_range 0 expiry_2025
               (expiring "01/01/2025") 1 1 2025 20089 20453)%Z;
      try reflexivity; try (vm_compute; split; discriminate); lia.
Defined.

(** ** What ingestion and the table store *)

Lemma upper_opt_upper_cased o : upper_cased (upper_opt o).
Proof. destruct o as [s|]; cbn; [apply toUpperCase_idem|exact I]. Qed.

Lemma d_title_upper clk dob gender :
  JS.toUpperCase (d_title (deriveAttributes clk dob gender))
  = d_title (deriveAttributes clk dob gender).
Proof.
  unfold deriveAttributes.
  destruct (negb (JS.truthy_string dob)); [reflexivity|].
  destruct (negb _); [reflexivity|]. cbn [d_title].
  set (a := age clk _).
  destruct (JS.lt a (Some 2%Z)), (String.eqb _ "MALE"),
           (JS.gt a (Some 30%Z)); reflexivity.
Qed.

Lemma PassengerType_str_upper t :
  JS.toUpperCase (PassengerType_str t) = PassengerType_str t.
Proof. destruct t; reflexivity. Qed.

(** X15. A record completed from an answer of the recognition service is
    stored upper-cased: its first name, last name, passport number,
    nationality and gender are the upper-cased values of the answer
    (absent when the answer lacks them), and its title and passenger type
    are upper-cased too, whether the title comes from the answer or is
    derived. *)
Theorem ingested_record_is_upper_cased (clk : Clock) (placeholderId : string)
    (result : Answer) (st : AppState) (p' : PassportData) :
  In p' (snap_items (present (history
           (fileCompleted clk placeholderId (answer_details result) st)))) ->
  id p' = placeholderId ->
  status p' = Completed
  /\ firstName p' = upper_opt (a_firstName result)
  /\ lastName p' = upper_opt (a_lastName result)
  /\ passportNumber p' = upper_opt (a_passportNumber result)
  /\ nationality p' = upper_opt (a_nationality result)
  /\ gender p' = upper_opt (a_gender result)
  /\ upper_cased (firstName p') /\ upper_cased (lastName p')
  /\ upper_cased (passportNumber p') /\ upper_cased (nationality p')
  /\ upper_cased (gender p') /\ upper_cased (title p')
  /\ upper_cased (passengerType p').
Proof.
  unfold fileCompleted.
  cbn [bump setHistory history present snap_items].
  intros Hin Hid. apply in_map_iff in Hin. destruct Hin as (q & Hq & _).
  destruct (String.eqb_spec (id q) placeholderId) as [_|Hne];
    [|subst p'; contradiction].
  subst p'.
  cbn [status firstName lastName passportNumber nationality gender title
       passengerType completed_record finalDetails answer_details
       x_firstName x_lastName x_passportNumber x_nationality x_gender
       x_title x_passengerType].
  repeat split; try apply upper_opt_upper_cased.
  - cbn [upper_cased]. unfold JS.or_else, upper_opt.
    destruct (a_title result) as [t|]; cbn [option_map];
      [destruct (JS.truthy_string _); [apply toUpperCase_idem|]|];
      apply d_title_upper.
  - cbn [upper_cased]. apply PassengerType_str_upper.
Qed.

Lemma ingested_record_is_upper_cased_witness :
  let after :=
    snap_items (present (history
      (fileCompleted clock_2025 "f1"
         (answer_details
            (mkAnswer None (Some "Faisal"%string) (Some "Pulikkuth"%string)
               (Some "u9628867"%string) None None None None None))
         one_placeholder))) in
  let p' := nth 0 after (sample "" "" "" "") in
  firstName p' = Some "FAISAL"%string /\ upper_cased (title p').
Proof.
  intros after p'.
  destruct (ingested_record_is_upper_cased clock_2025 "f1"
              (mkAnswer None (Some "Faisal"%string) (Some "Pulikkuth"%string)
                 (Some "u9628867"%string) None None None None None)
              one_placeholder p' (or_introl eq_refl) eq_refl)
    as (_ & H & _ & _ & _ & _ & _ & _ & _ & _ & _ & Ht & _).
  split; [exact H|exact Ht].
Defined.

(** X16. What is typed into the first name, last name, gender, passport
    number and country columns of [PassportTable] is stored upper-cased
    in the edited record. *)
Theorem passportTable_columns_are_upper_cased (clk : Clock) (id0 : string)
    (field : Field) (input : string) (st : AppState) (p' : PassportData) :
  heap_ok st ->
  field = F_firstName \/ field = F_lastName \/ field = F_gender
  \/ field = F_passportNumber \/ field = F_nationality ->
  In p' (snap_items (present (history
           (onChange ViaPassportTable clk id0 field input st)))) ->
  id p' = id0 ->
  get_field field p' = Some (JS.toUpperCase input)
  /\ upper_cased (get_field field p').
Proof.
  intros Hok Hf Hin Hid. unfold onChange in Hin.
  rewrite (updatePassport_items clk id0 field _ st Hok) in Hin.
  apply edited_In in Hin. destruct Hin as (p & _ & Hidp & Hget).
  assert (H : get_field field p' = Some (JS.toUpperCase input)).
  { rewrite Hget. unfold edit_record.
    rewrite <- Hidp, Hid, String.eqb_refl. cbn [negb].
    destruct Hf as [-> |[-> |[-> |[-> | ->]]]]; reflexivity. }
  split; [exact H|]. rewrite H. apply toUpperCase_idem.
Qed.

Lemma passportTable_columns_are_upper_cased_witness :
  let after :=
    snap_items (present (history
      (onChange ViaPassportTable clock_2025 "a" F_nationality "india"
         (manifest_of two_passengers)))) in
  let p' := nth 0 after (sample "" "" "" "") in
  nationality p' = Some "INDIA"%string.
Proof.
  intros after p'.
  exact (proj1 (passportTable_columns_are_upper_cased clock_2025 "a"
                  F_nationality "india" (manifest_of two_passengers) p'
                  (manifest_of_ok two_passengers)
                  (or_intror (or_intror (or_intror (or_intror eq_refl))))
                  (or_introl eq_refl) eq_refl)).
Defined.

(** ** The duplicate check and the letter case *)

Lemma is_space_upper c : JS.is_space (JS.upper_ascii c) = JS.is_space c.
Proof. destruct c as [[] [] [] [] [] [] [] []]; reflexivity. Qed.

Lemma trimStart_upper s :
  JS.trimStart (JS.toUpperCase s) = JS.toUpperCase (JS.trimStart s).
Proof.
  induction s as [|c s IH]; [reflexivity|].
  cbn [JS.toUpperCase JS.trimStart]. rewrite is_space_upper.
  destruct (JS.is_space c); [exact IH|reflexivity].
Qed.

Lemma trimEnd_upper s :
  JS.trimEnd (JS.toUpperCase s) = JS.toUpperCase (JS.trimEnd s).
Proof.
  induction s as [|c s IH]; [reflexivity|].
  cbn [JS.toUpperCase JS.trimEnd]. rewrite IH, is_space_upper.
  destruct (JS.trimEnd s); cbn [JS.toUpperCase];
    [destruct (JS.is_space c)|]; reflexivity.
Qed.

Lemma trim_upper s : JS.trim (JS.toUpperCase s) = JS.toUpperCase (JS.trim s).
Proof. unfold JS.trim. now rewrite trimStart_upper, trimEnd_upper. Qed.

Lemma same_text_upper a b : same_text (upper_opt a) b = same_text a b.
Proof.
  destruct a as [x|], b as [y|]; try reflexivity. cbn.
  rewrite trim_upper, toUpperCase_idem. now destruct x.
Qed.

Lemma truthy_upper a : JS.truthy (upper_opt a) = JS.truthy a.
Proof. destruct a as [[|c s]|]; reflexivity. Qed.

(** X17. The duplicate check does not depend on the letter case of the
    candidate: a candidate and the same candidate with its passport number
    and names upper-cased get the same verdict against any list. *)
Theorem duplicate_check_ignores_case (d1 d2 : PassportData)
    (currentId : string) (list : list PassportData) :
  passportNumber d2 = upper_opt (passportNumber d1) ->
  firstName d2 = upper_opt (firstName d1) ->
  lastName d2 = upper_opt (lastName d1) ->
  checkIsDuplicate d2 currentId list = checkIsDuplicate d1 currentId list.
Proof.
  intros Hp Hf Hl. unfold checkIsDuplicate, flags.
  cbn [get_passportNumber get_firstName get_lastName Identified_PassportData].
  rewrite Hp, Hf, Hl, !truthy_upper. destruct (_ && _); [reflexivity|].
  induction list as [|q l IH]; [reflexivity|].
  cbn [existsb]. now rewrite IH, !same_text_upper.
Qed.

Lemma duplicate_check_ignores_case_witness :
  checkIsDuplicate (sample "c" "X2" "ZOE" "TAN") "c" two_passengers
  = checkIsDuplicate (sample "c" "x2" "Zoe" "Tan") "c" two_passengers.
Proof.
  apply duplicate_check_ignores_case; reflexivity.
Defined.

(** ** The exported sheet *)

Lemma export_rows_from_nth view : forall i k p,
  nth_error view k = Some p ->
  nth_error (export_rows_from i view) k = Some (export_row (i + k) p).
Proof.
  induction view as [|q view IH]; intros i [|k] p H; try discriminate.
  - injection H as ->. cbn. now rewrite Nat.add_0_r.
  - cbn [export_rows_from nth_error] in *.
    rewrite (IH (S i) k p H). f_equal. f_equal. lia.
Qed.

Lemma export_rows_from_length view : forall i,
  List.length (export_rows_from i view) = List.length view.
Proof.
  induction view as [|q view IH]; intros i; [reflexivity|].
  cbn [export_rows_from List.length]. now rewrite IH.
Qed.

Lemma export_rows_from_width view : forall i,
  Forall (fun row => List.length row = List.length headers)
         (export_rows_from i view).
Proof.
  induction view as [|q view IH]; intros i; constructor;
    [reflexivity|apply IH].
Qed.

(** X18. The exported sheet is a rectangle that follows the view: one
    header row and one row per record of the view, every row as wide as
    the header row; the row of the record at position [k] of the view is
    numbered [k + 1] in its first cell, and its TYPE cell is never empty
    (ADULT stands for a missing type). *)
Theorem export_sheet_follows_view (view : list PassportData) :
  List.length (export_sheet view) = S (List.length view)
  /\ Forall (fun row => List.length row = List.length headers)
            (export_sheet view)
  /\ forall k p, nth_error view k = Some p ->
       exists cells,
         nth_error (export_sheet view) (S k)
         = Some (CNum (k + 1)
                   :: CStr (JS.or_else (passengerType p) "ADULT") :: cells)
         /\ JS.or_else (passengerType p) "ADULT" <> ""%string.
Proof.
  unfold export_sheet. split; [|split].
  - cbn [List.length]. now rewrite export_rows_from_length.
  - constructor; [reflexivity|apply export_rows_from_width].
  - intros k p H. cbn [nth_error].
    rewrite (export_rows_from_nth view 0 k p H). cbn [Nat.add export_row].
    eexists. split; [reflexivity|].
    unfold JS.or_else. destruct (passengerType p) as [[|c s]|]; discriminate.
Qed.

Lemma export_sheet_follows_view_witness :
  exists cells,
    nth_error (export_sheet two_passengers) 2
    = Some (CNum 2 :: CStr "ADULT" :: cells).
Proof.
  destruct (proj2 (proj2 (export_sheet_follows_view two_passengers))
              1%nat (sample "b" "X2" "BOB" "RAY") eq_refl) as (cells & H & _).
  exists cells. exact H.
Defined.

(** ** The initials of a card *)

Lemma toUpperCase_empty s : JS.toUpperCase s = ""%string -> s = ""%string.
Proof. destruct s; [reflexivity|discriminate]. Qed.

(** X19. The badge of a card is never empty: it is "!" for a record in
    error, "?" when neither name has a first character, and otherwise
    starts with the upper-cased first character of the first name when
    there is one. *)
Theorem getInitials_never_empty (st : Status) (first last : option string) :
  getInitials st first last <> ""%string
  /\ (st = Failed -> getInitials st first last = "!"%string)
  /\ (st <> Failed -> JS.truthy first = false -> JS.truthy last = false ->
      getInitials st first last = "?"%string)
  /\ (st <> Failed -> forall c r, first = Some (String c r) ->
      exists rest,
        getInitials st first last = String (JS.upper_ascii c) rest).
Proof.
  unfold getInitials. split; [|split; [|split]].
  - destruct (Status_eqb st Failed); [discriminate|].
    destruct (JS.truthy_string _) eqn:E; [|discriminate].
    intros H. rewrite H in E. discriminate.
  - intros ->. reflexivity.
  - intros Hs Hf Hl.
    destruct st; try congruence; cbn [Status_eqb];
      destruct first as [[|c r]|], last as [[|c' r']|]; try discriminate;
      reflexivity.
  - intros Hs c r ->.
    destruct st; try congruence; cbn [Status_eqb option_map charAt0];
      eexists; reflexivity.
Qed.

Lemma getInitials_never_empty_witness :
  getInitials Failed (Some "ANN"%string) (Some "LEE"%string) = "!"%string
  /\ getInitials Processing (Some ""%string) (Some ""%string) = "?"%string.
Proof.
  split.
  - apply (proj1 (proj2 (getInitials_never_empty Failed (Some "ANN"%string)
                           (Some "LEE"%string)))). reflexivity.
  - apply (proj1 (proj2 (proj2 (getInitials_never_empty Processing
                                  (Some ""%string) (Some ""%string)))));
      [discriminate|reflexivity|reflexivity].
Defined.

Lemma unknown_id_still_commits_witness :
  let st := manifest_of two_passengers in
  snap_items (present (history (deletePassport "zz" st))) = two_passengers
  /\ List.length (past (history (deletePassport "zz" st))) = 1%nat.
Proof.
  intros st.
  destruct (unknown_id_still_commits clock_2025 "zz" F_title "MR" st
              (manifest_of_ok two_passengers))
    as (_ & Hitems & Hpast & _).
  - intros p [<-|[<-|[]]]; discriminate.
  - split; [exact Hitems|]. rewrite Hpast. reflexivity.
Defined.

Lemma checkIsDuplicate_iff_witness :
  exists p, In p two_passengers /\ id p <> "c"%string /\ status p = Completed.
Proof.
  destruct (proj1 (checkIsDuplicate_iff (sample "c" "x2" "ZOE" "TAN") "c"
                     two_passengers) eq_refl) as (p & Hin & Hne & Hs & _).
  exists p. auto.
Defined.

Lemma title_goes_with_type_witness :
  d_title (deriveAttributes clock_2025 "01/01/2020" "female") = "MR"%string
  \/ d_title (deriveAttributes clock_2025 "01/01/2020" "female") = "MS"%string.
Proof.
  apply (proj1 (proj2 (title_goes_with_type clock_2025 "01/01/2020"
                         "female"))).
  reflexivity.
Defined.

(** ** The sort header *)

Lemma Field_eqb_eq a b : Field_eqb a b = true <-> a = b.
Proof. destruct a, b; cbn; split; congruence. Qed.

(** X20. A click on a column header sorts by that column; it sorts
    ascending, unless the view was already sorted ascending by that very
    column, in which case it sorts descending.  So a second click on the
    same header always reverses the order of the first. *)
Theorem handleSort_toggles (k : Field) (prev : SortConfig) :
  key (handleSort k prev) = Some k
  /\ (order (handleSort k prev) = desc
      <-> key prev = Some k /\ order prev = asc)
  /\ order (handleSort k (handleSort k prev)) <> order (handleSort k prev).
Proof.
  assert (Hrefl : Field_eqb k k = true) by now apply Field_eqb_eq.
  unfold handleSort. cbn [key order]. rewrite Hrefl.
  split; [reflexivity|]. split.
  - destruct (key prev) as [k'|], (order prev); try (split; [discriminate|]);
      try (intros [? ?]; discriminate).
    destruct (Field_eqb k' k) eqn:E.
    + apply Field_eqb_eq in E. subst. now split.
    + split; [discriminate|]. intros [H _]. injection H as ->.
      rewrite Hrefl in E. discriminate.
  - destruct (key prev) as [k'|], (order prev); try discriminate.
    destruct (Field_eqb k' k); discriminate.
Qed.

Lemma handleSort_toggles_witness :
  order (handleSort F_lastName by_lastName) = desc.
Proof.
  apply (proj1 (proj2 (handleSort_toggles F_lastName by_lastName))).
  split; reflexivity.
Defined.

(** ** The undo and redo buttons *)

(** X21. The undo button is disabled exactly when [undo] would leave the
    history as it is, and the redo button exactly when [redo] would: an
    enabled button always changes the history. *)
Theorem buttons_disabled_iff_no_effect (h : HistoryState) :
  (undoDisabled h = true <-> undo h = h)
  /\ (redoDisabled h = true <-> redo h = h).
Proof.
  destruct h as [pa pr fu]. unfold undoDisabled, redoDisabled.
  cbn [past future]. split; split.
  - destruct pa; [reflexivity|discriminate].
  - destruct (rev_case pa) as [->|(l & x & ->)]; [reflexivity|].
    rewrite undo_snoc. intros H. injection H as Hp _ _.
    apply (f_equal (@List.length Snapshot)) in Hp.
    rewrite length_app in Hp. cbn [List.length] in Hp. lia.
  - destruct fu; [reflexivity|discriminate].
  - destruct fu as [|n nf]; [reflexivity|].
    unfold redo. cbn [past present future]. intros H. injection H as Hp _ _.
    apply (f_equal (@List.length Snapshot)) in Hp.
    rewrite length_app in Hp. cbn [List.length] in Hp. lia.
Qed.

Lemma buttons_disabled_iff_no_effect_witness :
  undo (history initial) = history initial
  /\ redo (history initial) = history initial.
Proof.
  split.
  - apply (proj1 (proj1 (buttons_disabled_iff_no_effect (history initial)))).
    reflexivity.
  - apply (proj1 (proj2 (buttons_disabled_iff_no_effect (history initial)))).
    reflexivity.
Defined.
